(** * Semantic-version parsing and comparison of [process_packages.py]

    A shallow embedding of [parse_semver] and [compare_semver]
    (src/command-injection/process_packages.py, lines 23-87) together with
    the properties the design document states about them, followed by the
    pure part of [main] that uses them: the [VERSION_RE] check, the
    extraction of the dependency's version, the choice of the dependency,
    [mark_failure] and the exchange of the two versions.

    Modelling conventions.
    - A Python [str] is a [string]: a sequence of characters with code
      points 0..255.  In a [str] pattern the class [\d] matches every
      Unicode decimal digit; on code points 0..255 these are exactly the
      ASCII digits, which is how [\d] is modelled.  Every token that
      reaches [str.isdigit] comes out of the class [[0-9A-Za-z.-]] of the
      pattern, on which [isdigit] is the ASCII digit test.  Strings with
      code points above 255 (among them those written with non-ASCII
      digits, which the patterns also accept) are outside the model.
    - A Python [int] is a [Z].  [int(...)] of a digit string gives its
      exact value, unless the string has more than 4300 digits (the
      interpreter's default limit), in which case it raises [ValueError].
    - A function that may raise returns a [result]: [Ok x] is "returned
      [x]", [ValueError] is "raised".  A function that returns [None] on
      failure returns an [option] inside it.
    - A [for] loop whose body may [return] is a recursive function into
      [option Z] (inside a [result] when the body may raise): [Some r] is
      "returned [r]", [None] is "fell off the end of the loop". *)

From Stdlib Require Import ZArith NArith List Bool Ascii String Lia.
Import ListNotations.

Local Open Scope string_scope.
Local Open Scope Z_scope.

(** ** Outcomes *)

(** The outcome of a call: a returned value, or the [ValueError] that
    [int] raises; no other exception arises in the modelled code. *)
Inductive result (A : Type) : Type :=
| Ok (a : A)
| ValueError.

Arguments Ok {A} a.
Arguments ValueError {A}.

(** Sequencing: an exception in the first step ends the computation. *)
Definition bind {A B : Type} (r : result A) (k : A -> result B)
  : result B :=
  match r with
  | Ok a => k a
  | ValueError => ValueError
  end.

Notation "x <- e ;; k" := (bind e (fun x => k))
  (at level 61, e at next level, right associativity).

(** ** Python primitives used by the two functions *)

Module Py.

(** Code point of a character, as an integer. *)
Definition ord (c : ascii) : Z := Z.of_N (N_of_ascii c).

(** The class [\d] on code points 0..255, where it is [[0-9]]. *)
Definition is_digit (c : ascii) : bool :=
  (48 <=? ord c) && (ord c <=? 57).

Definition is_upper (c : ascii) : bool :=
  (65 <=? ord c) && (ord c <=? 90).

Definition is_lower (c : ascii) : bool :=
  (97 <=? ord c) && (ord c <=? 122).

(** The class [[0-9A-Za-z.-]] of the prerelease and build groups. *)
Definition is_seg_char (c : ascii) : bool :=
  is_digit c || is_upper c || is_lower c
  || Ascii.eqb c "."%char || Ascii.eqb c "-"%char.

(** All characters of [s] satisfy [p]. *)
Fixpoint all (p : ascii -> bool) (s : string) : bool :=
  match s with
  | EmptyString => true
  | String c r => p c && all p r
  end.

Definition is_empty (s : string) : bool :=
  match s with
  | EmptyString => true
  | String _ _ => false
  end.

(** [str.isdigit()] on a token of the class [[0-9A-Za-z.-]]: at least
    one character, and all of them digits.  Also what a group [(\d+)]
    captures: a non-empty run of digits. *)
Definition isdigit (s : string) : bool :=
  negb (is_empty s) && all is_digit s.

(** Value of one decimal digit character. *)
Definition digit_val (c : ascii) : Z := ord c - 48.

(** The number a digit string denotes, most significant digit first. *)
Fixpoint int_acc (acc : Z) (s : string) : Z :=
  match s with
  | EmptyString => acc
  | String c r => int_acc (10 * acc + digit_val c) r
  end.

Definition int_value (s : string) : Z := int_acc 0 s.

(** [sys.int_info.default_max_str_digits]: the longest digit string
    that [int] converts. *)
Definition int_max_str_digits : nat := 4300.

(** [int(s)] for a digit string [s]: its value, or [ValueError] when [s]
    has more digits than the limit (leading zeros count). *)
Definition int (s : string) : result Z :=
  if (String.length s <=? int_max_str_digits)%nat then Ok (int_value s)
  else ValueError.

(** [c * n]: the character [c] repeated [n] times. *)
Fixpoint replicate (n : nat) (c : ascii) : string :=
  match n with
  | O => EmptyString
  | S n' => String c (replicate n' c)
  end.

(** [s.split(sep)] for a one-character separator: never the empty list,
    and consecutive separators give empty pieces. *)
Fixpoint split (sep : ascii) (s : string) : list string :=
  match s with
  | EmptyString => [EmptyString]
  | String c r =>
      if Ascii.eqb c sep then EmptyString :: split sep r
      else match split sep r with
           | h :: t => String c h :: t
           | [] => [String c EmptyString]
           end
  end.

(** [sep.join(l)]. *)
Fixpoint join (sep : string) (l : list string) : string :=
  match l with
  | [] => EmptyString
  | [x] => x
  | x :: r => x ++ sep ++ join sep r
  end.

(** The comparisons [xa > xb] and [xa < xb] on strings: lexicographic
    by code point. *)
Definition str_gt (xa xb : string) : bool :=
  match String.compare xa xb with Gt => true | _ => false end.

Definition str_lt (xa xb : string) : bool :=
  match String.compare xa xb with Lt => true | _ => false end.

(** Longest prefix of [s] whose characters satisfy [p], and the rest:
    what a greedy [c+] or [c*] consumes. *)
Fixpoint span (p : ascii -> bool) (s : string) : string * string :=
  match s with
  | EmptyString => (EmptyString, EmptyString)
  | String c r =>
      if p c then let (a, b) := span p r in (String c a, b)
      else (EmptyString, s)
  end.

(** The anchor [$]: the end of the string, or just before a newline that
    is the last character. *)
Definition at_end (s : string) : bool :=
  match s with
  | EmptyString => true
  | String c EmptyString => Ascii.eqb c "010"%char
  | _ => false
  end.

End Py.

(** ** The parsed version *)

(** The tuple [(major, minor, patch, pre)] returned by [parse_semver];
    [pre] is [None] or the list of prerelease identifiers. *)
Record version : Type := mkVersion {
  major : Z;
  minor : Z;
  patch : Z;
  pre : option (list string)
}.

(** The groups 1 to 5 of a successful match. *)
Record groups : Type := mkGroups {
  g_major : string;
  g_minor : string;
  g_patch : string;
  g_pre : option string;
  g_build : option string
}.

(** An optional group [(?:<lead>([0-9A-Za-z.-]+))?] tried at [s]: the
    captured text, if the group takes part in the match, and the rest. *)
Definition opt_segment (lead : ascii) (s : string) : option string * string :=
  match s with
  | String c r =>
      if Ascii.eqb c lead then
        let (g, rest) := Py.span Py.is_seg_char r in
        if Py.is_empty g then (None, s) else (Some g, rest)
      else (None, s)
  | EmptyString => (None, s)
  end.

(** A component [(\d+)] followed by the literal that ends it. *)
Definition digits_then (s : string) : option (string * string) :=
  let (g, rest) := Py.span Py.is_digit s in
  if Py.is_empty g then None else Some (g, rest).

Definition expect (c : ascii) (s : string) : option string :=
  match s with
  | String c' r => if Ascii.eqb c' c then Some r else None
  | EmptyString => None
  end.

(** [re.match] of
    [^(\d+)\.(\d+)\.(\d+)(?:-([0-9A-Za-z.-]+))?(?:\+([0-9A-Za-z.-]+))?$]
    (lines 26-28). *)
Definition re_match (ver : string) : option groups :=
  match digits_then ver with
  | None => None
  | Some (g1, r1) =>
  match expect "."%char r1 with
  | None => None
  | Some r1' =>
  match digits_then r1' with
  | None => None
  | Some (g2, r2) =>
  match expect "."%char r2 with
  | None => None
  | Some r2' =>
  match digits_then r2' with
  | None => None
  | Some (g3, r3) =>
      let (g4, r4) := opt_segment "-"%char r3 in
      let (g5, r5) := opt_segment "+"%char r4 in
      if Py.at_end r5 then Some (mkGroups g1 g2 g3 g4 g5) else None
  end end end end end.

(** [parse_semver] (lines 23-37). *)
Definition parse_semver (ver : string) : result (option version) :=
  match re_match ver with
  | None => Ok None
  | Some m =>
      major <- Py.int (g_major m) ;;
      minor <- Py.int (g_minor m) ;;
      patch <- Py.int (g_patch m) ;;
      let prerelease := g_pre m in
      let pre :=
        match prerelease with
        | None => None
        | Some p => Some (Py.split "."%char p)
        end in
      Ok (Some (mkVersion major minor patch pre))
  end.

(** ** Comparison *)

(** [pa[i]] for [i] in [range(3)]. *)
Definition component (v : version) (i : nat) : Z :=
  match i with
  | O => major v
  | S O => minor v
  | _ => patch v
  end.

(** The loop of lines 47-51, over the indices still to visit. *)
Fixpoint release_loop (pa pb : version) (range : list nat) : option Z :=
  match range with
  | [] => None
  | i :: range' =>
      if component pa i >? component pb i then Some 1
      else if component pa i <? component pb i then Some (-1)
      else release_loop pa pb range'
  end.

(** The body of the prerelease loop for one pair of tokens
    (lines 71-86). *)
Definition ident_step (xa xb : string) : result (option Z) :=
  if Py.isdigit xa && Py.isdigit xb then
    na <- Py.int xa ;;
    nb <- Py.int xb ;;
    Ok (if na >? nb then Some 1
        else if na <? nb then Some (-1)
        else None)
  else if Py.isdigit xa then Ok (Some (-1))
  else if Py.isdigit xb then Ok (Some 1)
  else
    Ok (if Py.str_gt xa xb then Some 1
        else if Py.str_lt xa xb then Some (-1)
        else None).

(** The loop of lines 64-86: [n] iterations remain, the next index
    is [i]. *)
Fixpoint pre_loop (a_pre b_pre : list string) (i : nat) (n : nat)
  : result (option Z) :=
  match n with
  | O => Ok None
  | S n' =>
      if (List.length a_pre <=? i)%nat then Ok (Some (-1))
      else if (List.length b_pre <=? i)%nat then Ok (Some 1)
      else
        let xa := nth i a_pre EmptyString in
        let xb := nth i b_pre EmptyString in
        step <- ident_step xa xb ;;
        match step with
        | Some r => Ok (Some r)
        | None => pre_loop a_pre b_pre (S i) n'
        end
  end.

(** Lines 47-87: the comparison once both strings have parsed. *)
Definition compare_parsed (pa pb : version) : result Z :=
  match release_loop pa pb (seq 0 3) with
  | Some r => Ok r
  | None =>
      let a_pre := pre pa in
      let b_pre := pre pb in
      match a_pre, b_pre with
      | None, None => Ok 0
      | None, Some _ => Ok 1
      | Some _, None => Ok (-1)
      | Some a_pre, Some b_pre =>
          let la := List.length a_pre in
          let lb := List.length b_pre in
          out <- pre_loop a_pre b_pre 0 (Nat.max la lb) ;;
          match out with
          | Some r => Ok r
          | None => Ok 0
          end
      end
  end.

(** [compare_semver] (lines 40-87): [None] when either string fails to
    parse, otherwise 1, 0 or -1; both strings are parsed before either
    result is looked at. *)
Definition compare_semver (a b : string) : result (option Z) :=
  pa <- parse_semver a ;;
  pb <- parse_semver b ;;
  match pa, pb with
  | Some pa, Some pb => r <- compare_parsed pa pb ;; Ok (Some r)
  | _, _ => Ok None
  end.

(** ** Structural view of the comparison

    The same comparison on the numbers the tokens denote, written by
    recursion on the data instead of by index; [compare_parsed_structural]
    below shows that this is what the loops compute whenever every
    conversion succeeds. *)

(** A string within the limit of [int]. *)
Definition short (t : string) : Prop :=
  (String.length t <= Py.int_max_str_digits)%nat.

(** What one loop body decides when its conversions succeed. *)
Definition ident_step_value (xa xb : string) : option Z :=
  if Py.isdigit xa && Py.isdigit xb then
    if Py.int_value xa >? Py.int_value xb then Some 1
    else if Py.int_value xa <? Py.int_value xb then Some (-1)
    else None
  else if Py.isdigit xa then Some (-1)
  else if Py.isdigit xb then Some 1
  else
    if Py.str_gt xa xb then Some 1
    else if Py.str_lt xa xb then Some (-1)
    else None.

(** The same, with 0 for "no decision at this index". *)
Definition ident_cmp (xa xb : string) : Z :=
  match ident_step_value xa xb with
  | Some r => r
  | None => 0
  end.

(** Two tokens tie: the loop body returns, without a result, and the
    loop goes on. *)
Definition tie (xa xb : string) : Prop := ident_step xa xb = Ok None.

(** Three-way comparison of integers as the pair of tests
    [x > y] / [x < y] performs it. *)
Definition cmp_int (x y : Z) : Z :=
  if x >? y then 1 else if x <? y then -1 else 0.

Section Combinators.
Context {A B : Type}.

(** First component decides, the second breaks ties. *)
Definition cmp_pair (c1 : A -> A -> Z) (c2 : B -> B -> Z)
  (x y : A * B) : Z :=
  if c1 (fst x) (fst y) =? 0 then c2 (snd x) (snd y)
  else c1 (fst x) (fst y).

(** Index by index; when one list runs out first it is the smaller. *)
Fixpoint cmp_list (c : A -> A -> Z) (a b : list A) : Z :=
  match a, b with
  | [], [] => 0
  | [], _ :: _ => -1
  | _ :: _, [] => 1
  | x :: a', y :: b' => if c x y =? 0 then cmp_list c a' b' else c x y
  end.

(** An absent value is above every present one. *)
Definition cmp_absent_top (c : A -> A -> Z) (a b : option A) : Z :=
  match a, b with
  | None, None => 0
  | None, Some _ => 1
  | Some _, None => -1
  | Some x, Some y => c x y
  end.

(** The laws of a three-way comparison on a total preorder. *)
Record cmp_laws (c : A -> A -> Z) : Prop := {
  cl_range : forall x y, c x y = -1 \/ c x y = 0 \/ c x y = 1;
  cl_refl : forall x, c x x = 0;
  cl_opp : forall x y, c y x = - c x y;
  cl_trans : forall x y z, c x y = 1 -> c y z = 1 -> c x z = 1;
  cl_cong : forall x y z, c x y = 0 -> c x z = c y z
}.
End Combinators.

(** The fields of a version in the order in which they are compared. *)
Definition key (v : version) : Z * (Z * (Z * option (list string))) :=
  (major v, (minor v, (patch v, pre v))).

Definition cmp_key :
  Z * (Z * (Z * option (list string))) ->
  Z * (Z * (Z * option (list string))) -> Z :=
  cmp_pair cmp_int
    (cmp_pair cmp_int
       (cmp_pair cmp_int (cmp_absent_top (cmp_list ident_cmp)))).

(** The version that the groups of a match denote. *)
Definition version_of_groups (m : groups) : version :=
  mkVersion (Py.int_value (g_major m)) (Py.int_value (g_minor m))
    (Py.int_value (g_patch m)) (option_map (Py.split ".") (g_pre m)).

(** The three components are within the limit of [int]. *)
Definition short_groups (m : groups) : Prop :=
  short (g_major m) /\ short (g_minor m) /\ short (g_patch m).

(** Every all-digit identifier of the list is within the limit of [int],
    so that the conversions the loop may attempt all succeed. *)
Definition convertible (ids : list string) : Prop :=
  Forall (fun t => Py.isdigit t = true -> short t) ids.

(** Every all-digit prerelease identifier is within the limit of [int]. *)
Definition short_numbers (v : version) : Prop :=
  forall ids t,
    pre v = Some ids -> In t ids -> Py.isdigit t = true -> short t.

(** ** Notions the stated properties refer to *)

(** A value fits the unsigned 64-bit range. *)
Definition fits_u64 (n : Z) : Prop := 0 <= n < 2 ^ 64.


(** Decimal rendering of a non-negative integer, least significant digit
    first onto an accumulator; [fuel] bounds the number of digits.  The
    source never prints a version: this and [serialize] follow the wording
    of the round-trip property, "major.minor.patch[-prerelease]". *)
Fixpoint str_acc (fuel : nat) (n : Z) (acc : string) : string :=
  match fuel with
  | O => acc
  | S fuel' =>
      let acc' := String (ascii_of_N (Z.to_N (48 + n mod 10))) acc in
      if n / 10 =? 0 then acc' else str_acc fuel' (n / 10) acc'
  end.

Definition str (n : Z) : string :=
  str_acc (S (Z.to_nat (Z.log2 n))) n EmptyString.

(** The canonical form of a version under the round-trip property:
    major "." minor "." patch, then "-" and the identifiers joined with
    "." when a prerelease is present. *)
Definition serialize (v : version) : string :=
  str (major v) ++ "." ++ str (minor v) ++ "." ++ str (patch v)
  ++ match pre v with
     | None => EmptyString
     | Some ids => String "-"%char (Py.join "." ids)
     end.

(** The text of an optional group together with its leading character. *)
Definition segment (lead : ascii) (g : option string) : string :=
  match g with
  | None => EmptyString
  | Some t => String lead t
  end.

(** What the pattern of [re_match] denotes: the strings of the shape
    digits "." digits "." digits ["-" seg] ["+" seg] [newline], with the
    five groups. *)
Definition matches (s : string) (m : groups) : Prop :=
  exists nl,
    s = g_major m ++ "." ++ g_minor m ++ "." ++ g_patch m
        ++ segment "-" (g_pre m) ++ segment "+" (g_build m) ++ nl
    /\ (nl = EmptyString \/ nl = String "010"%char EmptyString)
    /\ Py.isdigit (g_major m) = true
    /\ Py.isdigit (g_minor m) = true
    /\ Py.isdigit (g_patch m) = true
    /\ (forall p, g_pre m = Some p ->
          p <> EmptyString /\ Py.all Py.is_seg_char p = true)
    /\ (forall b, g_build m = Some b ->
          b <> EmptyString /\ Py.all Py.is_seg_char b = true).


(** A greedy scan for [p] stops in front of [r]: [r] is empty or starts
    with a character outside [p]. *)
Definition stops (p : ascii -> bool) (r : string) : Prop :=
  match r with
  | EmptyString => True
  | String c _ => p c = false
  end.

(** ** The caller's use of versions (lines 20, 190-264)

    [main] checks [fixedVersion] against [VERSION_RE], extracts a version
    from the dependency string with [re.search], and compares the two.
    File-system steps (reading, copying, writing, moving) are outside the
    model; the values they deliver enter as arguments. *)

(** The optional group [(?:[-+][0-9A-Za-z.-]+)?] tried at [s]: the text
    it matches (empty when the group is skipped) and the rest. *)
Definition either_segment (s : string) : string * string :=
  match s with
  | String c r =>
      if Ascii.eqb c "-" || Ascii.eqb c "+" then
        let (g, rest) := Py.span Py.is_seg_char r in
        if Py.is_empty g then (EmptyString, s) else (String c g, rest)
      else (EmptyString, s)
  | EmptyString => (EmptyString, s)
  end.

(** [\d+\.\d+\.\d+] tried at [s]: the text it matches and the rest. *)
Definition release_prefix (s : string) : option (string * string) :=
  match digits_then s with
  | None => None
  | Some (g1, r1) =>
  match expect "." r1 with
  | None => None
  | Some r1' =>
  match digits_then r1' with
  | None => None
  | Some (g2, r2) =>
  match expect "." r2 with
  | None => None
  | Some r2' =>
  match digits_then r2' with
  | None => None
  | Some (g3, r3) => Some (g1 ++ "." ++ g2 ++ "." ++ g3, r3)
  end end end end end.

(** [VERSION_RE.match(fixed)] as a truth value (line 20, used on
    line 191): [^\d+\.\d+\.\d+(?:[-+][0-9A-Za-z.-]+)?$]. *)
Definition VERSION_RE_match (fixed : string) : bool :=
  match release_prefix fixed with
  | None => false
  | Some (_, r3) => let (_, r4) := either_segment r3 in Py.at_end r4
  end.

(** A match of [\d+\.\d+\.\d+(?:[-+][0-9A-Za-z.-]+)?] starting at the
    first character of [s]: the matched text. *)
Definition match_here (s : string) : option string :=
  match release_prefix s with
  | None => None
  | Some (rel, r3) => let (seg, _) := either_segment r3 in Some (rel ++ seg)
  end.

(** [re.search(...)] of line 231 followed by [m.group(0)] of line 239:
    the match at the leftmost position that has one. *)
Fixpoint re_search (dep_version : string) : option string :=
  match match_here dep_version with
  | Some t => Some t
  | None =>
      match dep_version with
      | EmptyString => None
      | String _ r => re_search r
      end
  end.

(** Values delivered by [json.load]; Python's [None] is [JNull].  Numbers
    are carried around and never inspected; only integers are
    represented. *)
#[warnings="-register-all"]
Inductive json : Type :=
| JNull
| JBool (b : bool)
| JNum (n : Z)
| JStr (s : string)
| JList (l : list json)
| JDict (d : list (string * json)).

(** A [dict] with string keys, in insertion order; keys are distinct. *)
Definition dict (V : Type) : Type := list (string * V).

(** [d[k]], when [k] is a key. *)
Fixpoint dict_get {V : Type} (k : string) (d : dict V) : option V :=
  match d with
  | [] => None
  | (k', v) :: r => if String.eqb k' k then Some v else dict_get k r
  end.

(** [k in d]. *)
Definition dict_in {V : Type} (k : string) (d : dict V) : bool :=
  match dict_get k d with
  | Some _ => true
  | None => false
  end.

(** [d[k] = v]: an existing key keeps its place, a new one goes last. *)
Fixpoint dict_set {V : Type} (k : string) (v : V) (d : dict V) : dict V :=
  match d with
  | [] => [(k, v)]
  | (k', v') :: r =>
      if String.eqb k' k then (k, v) :: r else (k', v') :: dict_set k v r
  end.

(** [d.get(k)] on a dict of JSON values: [None] for a missing key. *)
Definition py_get (k : string) (d : dict json) : json :=
  match dict_get k d with
  | Some v => v
  | None => JNull
  end.

(** [type_lists.setdefault(category, []).append(name)]. *)
Fixpoint setdefault_append (category name : string)
  (type_lists : dict (list string)) : dict (list string) :=
  match type_lists with
  | [] => [(category, [name])]
  | (c, names) :: r =>
      if String.eqb c category then (c, (names ++ [name])%list) :: r
      else (c, names) :: setdefault_append category name r
  end.

(** The accumulators of [main] that the checks write to (lines 148-164). *)
Record report : Type := mkReport {
  invalid_fixed : list string;
  mismatched_deps : list string;
  primary_failure : dict string;
  type_lists : dict (list string)
}.

Definition initial_report : report :=
  mkReport [] [] []
    [("MissingPackage", []); ("InvalidJSON", []); ("InvalidFixed", []);
     ("CopyError", []); ("MismatchedDeps", []); ("SwapError", []);
     ("InvalidDepVersion", []); ("SameVersion", []);
     ("VersionNotGreater", [])].

(** [mark_failure] (lines 166-170). *)
Definition mark_failure (name category : string) (st : report) : report :=
  if negb (dict_in name (primary_failure st)) then
    mkReport (invalid_fixed st) (mismatched_deps st)
      (dict_set name category (primary_failure st))
      (setdefault_append category name (type_lists st))
  else st.

(** A sequence of [mark_failure] calls, oldest first. *)
Fixpoint mark_all (calls : list (string * string)) (st : report) : report :=
  match calls with
  | [] => st
  | (name, category) :: r => mark_all r (mark_failure name category st)
  end.

(** Truth value of [dep_key], which is [None] or a string. *)
Definition truthy (dep_key : option string) : bool :=
  match dep_key with
  | Some k => negb (Py.is_empty k)
  | None => false
  end.

(** Lines 197-226: the dependency whose version is checked, for the
    directory [name] and the value [deps] of [pkg.get("dependencies")]. *)
Definition select_dependency (name : string) (deps : json) (st : report)
  : option string * json * report :=
  let mismatch :=
    mark_failure name "MismatchedDeps"
      (mkReport (invalid_fixed st) (mismatched_deps st ++ [name])%list
         (primary_failure st) (type_lists st)) in
  match deps with
  | JDict d =>
      if dict_in name d then (Some name, py_get name d, st)
      else if (List.length d =? 1)%nat then
        match d with
        | (k, v) :: _ => (Some k, v, mismatch)
        | [] => (None, JNull, mismatch)
        end
      else (None, JNull, mismatch)
  | _ => (None, JNull, mismatch)
  end.

(** Lines 228-264: the version check.  The boolean tells whether the
    loop body goes on to the copy step ([true]) or hits [continue]; an
    exception of [compare_semver] is not caught. *)
Definition check_dependency_version (name fixed : string)
  (dep_key : option string) (dep_version : json) (st : report)
  : result (report * bool) :=
  if truthy dep_key then
    match dep_version with
    | JStr dv =>
        match re_search dv with
        | None => Ok (mark_failure name "InvalidDepVersion" st, false)
        | Some dep_clean =>
            cmp <- compare_semver fixed dep_clean ;;
            match cmp with
            | None => Ok (mark_failure name "InvalidFixed" st, false)
            | Some cmp =>
                if cmp =? 0 then
                  Ok (mark_failure name "SameVersion" st, false)
                else if cmp <? 0 then
                  Ok (mark_failure name "VersionNotGreater" st, false)
                else Ok (st, true)
            end
        end
    | _ => Ok (mark_failure name "InvalidDepVersion" st, false)
    end
  else Ok (st, true).

(** Lines 190-264 for one directory [name] whose [package.json] was read
    as the dict [pkg]: the updated accumulators and, when the body goes
    on to the copy step, the chosen [dep_key]. *)
Definition check_package (name : string) (pkg : dict json) (st : report)
  : result (report * option (option string)) :=
  let invalid :=
    Ok (mark_failure name "InvalidFixed"
          (mkReport (invalid_fixed st ++ [name])%list (mismatched_deps st)
             (primary_failure st) (type_lists st)), None) in
  match py_get "fixedVersion" pkg with
  | JStr fixed =>
      if VERSION_RE_match fixed then
        let '(dep_key, dep_version, st1) :=
          select_dependency name (py_get "dependencies" pkg) st in
        out <- check_dependency_version name fixed dep_key dep_version st1 ;;
        let (st2, go) := out in
        Ok (st2, if go then Some dep_key else None)
      else invalid
  | _ => invalid
  end.

(** Lines 294-304: the exchange of [fixedVersion] and the dependency's
    version in the dict read from Safe/package.json; [None] when the
    condition of line 294 fails (the [SwapError] branch). *)
Definition swap_versions (dep_key : option string) (safe_pkg : dict json)
  : option (dict json) :=
  match dep_key with
  | Some k =>
      if negb (Py.is_empty k) then
        match dict_get "dependencies" safe_pkg with
        | Some (JDict deps) =>
            match dict_get k deps with
            | Some old_dep =>
                let old_fixed := py_get "fixedVersion" safe_pkg in
                let safe_pkg' := dict_set "fixedVersion" old_dep safe_pkg in
                Some (dict_set "dependencies"
                        (JDict (dict_set k old_fixed deps)) safe_pkg')
            | None => None
            end
        | _ => None
        end
      else None
  | None => None
  end.

(** ** Notions used by the further properties *)

(** The class [[0-9A-Za-z-]]: what an identifier can contain. *)
Definition is_ident_char (c : ascii) : bool :=
  Py.is_digit c || Py.is_upper c || Py.is_lower c || Ascii.eqb c "-".

(** The characters a version string is made of. *)
Definition is_version_char (c : ascii) : bool :=
  Py.is_seg_char c || Ascii.eqb c "+".

(** Two identifiers that the comparison does not tell apart: the same
    text, or two numbers of the same value. *)
Definition same_ident (xa xb : string) : Prop :=
  xa = xb
  \/ (Py.isdigit xa = true /\ Py.isdigit xb = true
      /\ Py.int_value xa = Py.int_value xb).

(** Two prerelease fields that the comparison does not tell apart. *)
Definition same_pre (a b : option (list string)) : Prop :=
  match a, b with
  | None, None => True
  | Some ia, Some ib => Forall2 same_ident ia ib
  | _, _ => False
  end.

(** The line feed, as a one-character string. *)
Definition newline : string := String "010" EmptyString.

(** A character other than the line feed. *)
Definition not_newline (c : ascii) : bool := negb (Ascii.eqb c "010").

(** The digit zero. *)
Definition is_zero (c : ascii) : bool := Ascii.eqb c "0".

(** The text of a match in front of the optional final newline. *)
Definition matched_core (m : groups) : string :=
  g_major m ++ "." ++ g_minor m ++ "." ++ g_patch m
  ++ segment "-" (g_pre m) ++ segment "+" (g_build m).

(** The characters that open the optional group of [VERSION_RE]. *)
Definition is_sign (c : ascii) : bool := Ascii.eqb c "-" || Ascii.eqb c "+".

(** A character that is not a digit. *)
Definition not_digit (c : ascii) : bool := negb (Py.is_digit c).

(** The names filed under [category]. *)
Definition filed_under (category : string) (st : report) : list string :=
  match dict_get category (type_lists st) with
  | Some names => names
  | None => []
  end.

(** The two failure tables agree: a name is filed under a category
    exactly when that category is its primary failure, and no list names
    a directory twice. *)
Definition consistent (st : report) : Prop :=
  (forall name category,
     In name (filed_under category st) <->
     dict_get name (primary_failure st) = Some category)
  /\ (forall category, NoDup (filed_under category st)).

(** ** Sanity checks on concrete inputs *)

Example parse_plain :
  parse_semver "2.1.3" = Ok (Some (mkVersion 2 1 3 None)).
Proof. reflexivity. Qed.

Example parse_pre_build :
  parse_semver "1.0.0-alpha.1+build.5"
  = Ok (Some (mkVersion 1 0 0 (Some ["alpha"; "1"]))).
Proof. reflexivity. Qed.

Example parse_short : parse_semver "1.2" = Ok None.
Proof. reflexivity. Qed.

Example parse_v_prefix : parse_semver "v1.2.3" = Ok None.
Proof. reflexivity. Qed.

Example parse_trailing_newline :
  parse_semver (String.append "1.2.3" (String "010"%char EmptyString))
  = Ok (Some (mkVersion 1 2 3 None)).
Proof. reflexivity. Qed.

Example compare_equal : compare_semver "2.1.3" "2.1.3" = Ok (Some 0).
Proof. reflexivity. Qed.

Example compare_numeric_ident :
  compare_semver "1.0.0-9" "1.0.0-10" = Ok (Some (-1)).
Proof. reflexivity. Qed.

Example compare_unparsed : compare_semver "1.0" "1.0.0" = Ok None.
Proof. reflexivity. Qed.

Example parse_too_long :
  parse_semver (Py.replicate 4301 "1" ++ ".0.0") = ValueError.
Proof. vm_compute. reflexivity. Qed.

Example compare_too_long :
  compare_semver ("1.0.0-" ++ Py.replicate 4301 "7") "1.0.0-7" = ValueError.
Proof. vm_compute. reflexivity. Qed.

Example str_examples :
  str 0 = "0" /\ str 7 = "7" /\ str 10 = "10" /\ str 4096 = "4096".
Proof. repeat split; reflexivity. Qed.

Example serialize_example :
  serialize (mkVersion 1 20 3 (Some ["rc"; "1"])) = "1.20.3-rc.1".
Proof. reflexivity. Qed.

(** ** Strings: scanning, splitting, joining *)

Lemma append_nil_r (s : string) : s ++ "" = s.
Proof. induction s as [|c s IH]; simpl; [reflexivity | now rewrite IH]. Qed.

Lemma append_assoc (s t u : string) : (s ++ t) ++ u = s ++ (t ++ u).
Proof. induction s as [|c s IH]; simpl; [reflexivity | now rewrite IH]. Qed.

Lemma all_app (p : ascii -> bool) (s t : string) :
  Py.all p (s ++ t) = Py.all p s && Py.all p t.
Proof.
  induction s as [|c s IH]; simpl; [reflexivity|].
  now rewrite IH, andb_assoc.
Qed.

Lemma span_spec (p : ascii -> bool) (s g r : string) :
  Py.span p s = (g, r) ->
  s = g ++ r /\ Py.all p g = true /\ stops p r.
Proof.
  revert g r; induction s as [|c s IH]; simpl; intros g r H.
  - inversion H; subst; simpl; auto.
  - destruct (p c) eqn:Hc.
    + destruct (Py.span p s) as [a b] eqn:Hs.
      inversion H; subst; clear H.
      destruct (IH a r eq_refl) as (-> & Ha & Hb).
      simpl. rewrite Hc, Ha. auto.
    + inversion H; subst; simpl; auto.
Qed.

Lemma span_app (p : ascii -> bool) (g r : string) :
  Py.all p g = true -> stops p r -> Py.span p (g ++ r) = (g, r).
Proof.
  induction g as [|c g IH]; simpl; intros Hg Hr.
  - destruct r as [|c r]; simpl in *; [reflexivity | now rewrite Hr].
  - apply andb_true_iff in Hg as [Hc Hg].
    now rewrite Hc, (IH Hg Hr).
Qed.

Lemma isdigit_spec (s : string) :
  Py.isdigit s = true <-> s <> "" /\ Py.all Py.is_digit s = true.
Proof.
  unfold Py.isdigit; destruct s; simpl; split.
  - discriminate.
  - intros [H _]; congruence.
  - intros H; split; [discriminate | exact H].
  - intros [_ H]; exact H.
Qed.

Lemma is_empty_false (s : string) : s <> "" -> Py.is_empty s = false.
Proof. destruct s; simpl; congruence. Qed.

Lemma is_empty_true (s : string) : Py.is_empty s = true -> s = "".
Proof. destruct s; simpl; congruence. Qed.

Lemma digits_then_app (g r : string) :
  Py.isdigit g = true -> stops Py.is_digit r ->
  digits_then (g ++ r) = Some (g, r).
Proof.
  intros Hg Hr. apply isdigit_spec in Hg as [Hne Hall].
  unfold digits_then. rewrite (span_app _ _ _ Hall Hr).
  now rewrite (is_empty_false _ Hne).
Qed.

Lemma digits_then_spec (s g r : string) :
  digits_then s = Some (g, r) ->
  s = g ++ r /\ Py.isdigit g = true /\ stops Py.is_digit r.
Proof.
  unfold digits_then. destruct (Py.span Py.is_digit s) as [a b] eqn:Hs.
  destruct (Py.is_empty a) eqn:He; [discriminate|].
  intros H; inversion H; subst; clear H.
  destruct (span_spec _ _ _ _ Hs) as (-> & Ha & Hb).
  repeat split; auto.
  apply isdigit_spec; split; auto.
  intros ->; discriminate.
Qed.

Lemma expect_spec (c : ascii) (s r : string) :
  expect c s = Some r <-> s = String c r.
Proof.
  destruct s as [|c' s]; simpl; split; try discriminate.
  - destruct (Ascii.eqb_spec c' c); intros H; inversion H; subst; auto.
  - intros H; inversion H; subst. now rewrite Ascii.eqb_refl.
Qed.

Lemma opt_segment_spec (lead : ascii) (s r : string) (g : option string) :
  opt_segment lead s = (g, r) ->
  s = segment lead g ++ r
  /\ (forall t, g = Some t ->
        t <> "" /\ Py.all Py.is_seg_char t = true
        /\ stops Py.is_seg_char r).
Proof.
  unfold opt_segment. destruct s as [|c s].
  - intros H; inversion H; subst; simpl; split; [auto | discriminate].
  - destruct (Ascii.eqb_spec c lead) as [->|Hne].
    + destruct (Py.span Py.is_seg_char s) as [a b] eqn:Hs.
      destruct (Py.is_empty a) eqn:He; intros H; inversion H; subst; clear H.
      * simpl; split; [auto | discriminate].
      * destruct (span_spec _ _ _ _ Hs) as (-> & Ha & Hb).
        simpl; split; [auto|].
        intros t Ht; inversion Ht; subst; repeat split; auto.
        intros ->; discriminate.
    + intros H; inversion H; subst; simpl; split; [auto | discriminate].
Qed.

Lemma opt_segment_some (lead : ascii) (t r : string) :
  t <> "" -> Py.all Py.is_seg_char t = true -> stops Py.is_seg_char r ->
  opt_segment lead (String lead t ++ r) = (Some t, r).
Proof.
  intros Hne Hall Hr. simpl. rewrite Ascii.eqb_refl.
  rewrite (span_app _ _ _ Hall Hr). now rewrite (is_empty_false _ Hne).
Qed.

Lemma opt_segment_none (lead : ascii) (r : string) :
  stops (fun c => Ascii.eqb c lead) r ->
  opt_segment lead r = (None, r).
Proof.
  destruct r as [|c r]; simpl; [reflexivity|].
  now intros ->.
Qed.

(** ** The matcher against the pattern's language *)

Ltac stops_tac :=
  repeat match goal with
         | g : option string |- _ => destruct g
         | H : _ \/ _ |- _ => destruct H
         end;
  subst; simpl; auto.

(** Whatever [re_match] accepts has the shape of the pattern. *)
Lemma re_match_sound (s : string) (m : groups) :
  re_match s = Some m -> matches s m.
Proof.
  unfold re_match.
  destruct (digits_then s) as [[g1 r1]|] eqn:H1; [|discriminate].
  destruct (expect "." r1) as [r1'|] eqn:E1; [|discriminate].
  destruct (digits_then r1') as [[g2 r2]|] eqn:H2; [|discriminate].
  destruct (expect "." r2) as [r2'|] eqn:E2; [|discriminate].
  destruct (digits_then r2') as [[g3 r3]|] eqn:H3; [|discriminate].
  destruct (opt_segment "-" r3) as [g4 r4] eqn:H4.
  destruct (opt_segment "+" r4) as [g5 r5] eqn:H5.
  destruct (Py.at_end r5) eqn:H6; [|discriminate].
  intros H; inversion H; subst; clear H.
  apply digits_then_spec in H1 as (-> & D1 & _).
  apply expect_spec in E1 as ->.
  apply digits_then_spec in H2 as (-> & D2 & _).
  apply expect_spec in E2 as ->.
  apply digits_then_spec in H3 as (-> & D3 & _).
  apply opt_segment_spec in H4 as (-> & P4).
  apply opt_segment_spec in H5 as (-> & P5).
  exists r5; simpl.
  split; [reflexivity|].
  split.
  { destruct r5 as [|c [|c' r]]; simpl in H6; try discriminate; auto.
    apply Ascii.eqb_eq in H6; subst; auto. }
  do 3 (split; [assumption|]).
  split; intros t Ht.
  - destruct (P4 t Ht) as (? & ? & ?); auto.
  - destruct (P5 t Ht) as (? & ? & ?); auto.
Qed.

(** Every string of the pattern's shape is accepted, with exactly the
    groups of its decomposition: the decomposition is unique, so no other
    way of matching can yield other groups. *)
Lemma re_match_complete (s : string) (m : groups) :
  matches s m -> re_match s = Some m.
Proof.
  destruct m as [g1 g2 g3 g4 g5].
  intros (nl & -> & Hnl & D1 & D2 & D3 & P4 & P5); simpl in *.
  unfold re_match.
  rewrite (digits_then_app g1) by (auto; reflexivity).
  cbn [expect append Ascii.eqb Bool.eqb].
  rewrite (digits_then_app g2) by (auto; reflexivity).
  cbn [expect append Ascii.eqb Bool.eqb].
  rewrite (digits_then_app g3) by (auto; stops_tac).
  assert (E4 : opt_segment "-" (segment "-" g4 ++ segment "+" g5 ++ nl)
               = (g4, segment "+" g5 ++ nl)).
  { destruct g4 as [p|].
    - destruct (P4 p eq_refl) as [Hne Hall].
      apply opt_segment_some; auto. stops_tac.
    - apply opt_segment_none. stops_tac. }
  rewrite E4.
  assert (E5 : opt_segment "+" (segment "+" g5 ++ nl) = (g5, nl)).
  { destruct g5 as [b|].
    - destruct (P5 b eq_refl) as [Hne Hall].
      apply opt_segment_some; auto. stops_tac.
    - apply opt_segment_none. stops_tac. }
  rewrite E5.
  destruct Hnl; subst; reflexivity.
Qed.

Lemma re_match_iff (s : string) (m : groups) :
  re_match s = Some m <-> matches s m.
Proof. split; [apply re_match_sound | apply re_match_complete]. Qed.

(** ** Conversions and the limit *)

Lemma int_short (t : string) : short t -> Py.int t = Ok (Py.int_value t).
Proof.
  unfold short, Py.int. intros H.
  now apply Nat.leb_le in H as ->.
Qed.

Lemma int_ok (t : string) (n : Z) :
  Py.int t = Ok n <-> short t /\ n = Py.int_value t.
Proof.
  unfold short, Py.int.
  destruct (Nat.leb_spec (String.length t) Py.int_max_str_digits).
  - split; [intros [= <-]; auto | intros [_ ->]; reflexivity].
  - split; [discriminate | intros [H' _]; lia].
Qed.

Lemma int_raises (t : string) : Py.int t = ValueError <-> ~ short t.
Proof.
  unfold short, Py.int.
  destruct (Nat.leb_spec (String.length t) Py.int_max_str_digits).
  - split; [discriminate | intros H'; lia].
  - split; [intros _; lia | reflexivity].
Qed.

(** The version built from the groups of a match (lines 31-37): the
    call returns a version exactly when the pattern matches and no
    component exceeds the limit of [int]. *)
Lemma parse_semver_groups (s : string) (v : version) :
  parse_semver s = Ok (Some v) <->
  exists m, matches s m /\ short_groups m /\ v = version_of_groups m.
Proof.
  unfold parse_semver, short_groups, version_of_groups; split.
  - destruct (re_match s) as [m|] eqn:Hm; [|discriminate].
    unfold bind.
    destruct (Py.int (g_major m)) as [n1|] eqn:E1; [|discriminate].
    destruct (Py.int (g_minor m)) as [n2|] eqn:E2; [|discriminate].
    destruct (Py.int (g_patch m)) as [n3|] eqn:E3; [|discriminate].
    apply int_ok in E1 as [S1 ->], E2 as [S2 ->], E3 as [S3 ->].
    intros [= <-]. exists m. split; [now apply re_match_sound|].
    split; [auto|]. destruct (g_pre m); reflexivity.
  - intros (m & Hm & (S1 & S2 & S3) & ->).
    rewrite (re_match_complete _ _ Hm).
    rewrite (int_short _ S1), (int_short _ S2), (int_short _ S3).
    unfold bind. destruct (g_pre m); reflexivity.
Qed.

(** The call returns [None] exactly when the pattern does not match. *)
Lemma parse_semver_none (s : string) :
  parse_semver s = Ok None <-> re_match s = None.
Proof.
  unfold parse_semver. destruct (re_match s) as [m|]; [|tauto].
  unfold bind.
  destruct (Py.int (g_major m)); [|split; discriminate].
  destruct (Py.int (g_minor m)); [|split; discriminate].
  destruct (Py.int (g_patch m)); split; discriminate.
Qed.

(** The call raises exactly when the pattern matches and a component
    exceeds the limit. *)
Lemma parse_semver_raises (s : string) :
  parse_semver s = ValueError <->
  exists m, matches s m /\ ~ short_groups m.
Proof.
  unfold parse_semver, short_groups; split.
  - destruct (re_match s) as [m|] eqn:Hm; [|discriminate].
    unfold bind. intros H. exists m. split; [now apply re_match_sound|].
    intros (S1 & S2 & S3).
    rewrite (int_short _ S1), (int_short _ S2), (int_short _ S3) in H.
    discriminate.
  - intros (m & Hm & Hn). rewrite (re_match_complete _ _ Hm). unfold bind.
    destruct (Py.int (g_major m)) as [n1|] eqn:E1; [|reflexivity].
    destruct (Py.int (g_minor m)) as [n2|] eqn:E2; [|reflexivity].
    destruct (Py.int (g_patch m)) as [n3|] eqn:E3; [|reflexivity].
    exfalso; apply Hn.
    apply int_ok in E1 as [S1 _], E2 as [S2 _], E3 as [S3 _]. auto.
Qed.
(** ** Integers and their decimal form *)

Lemma is_digit_val (c : ascii) :
  Py.is_digit c = true -> 0 <= Py.digit_val c <= 9.
Proof.
  unfold Py.is_digit, Py.digit_val.
  rewrite andb_true_iff, !Z.leb_le. lia.
Qed.

Lemma int_acc_nonneg (s : string) (acc : Z) :
  Py.all Py.is_digit s = true -> 0 <= acc -> 0 <= Py.int_acc acc s.
Proof.
  revert acc; induction s as [|c s IH]; cbn [Py.all Py.int_acc];
    intros acc Hs Hacc; [lia|].
  apply andb_true_iff in Hs as [Hc Hs].
  apply IH; [assumption|]. pose proof (is_digit_val c Hc). lia.
Qed.

Lemma int_nonneg (s : string) : Py.isdigit s = true -> 0 <= Py.int_value s.
Proof.
  intros H; apply isdigit_spec in H as [_ H].
  apply int_acc_nonneg; [assumption | lia].
Qed.

Lemma ord_digit (d : Z) :
  0 <= d <= 9 -> Py.ord (ascii_of_N (Z.to_N (48 + d))) = 48 + d.
Proof.
  intros Hd. unfold Py.ord. rewrite N_ascii_embedding; lia.
Qed.

Lemma str_acc_digits (fuel : nat) (n : Z) (acc : string) :
  0 <= n -> Py.all Py.is_digit acc = true ->
  Py.isdigit (str_acc fuel n acc) = true \/ fuel = O.
Proof.
  revert n acc; induction fuel as [|f IH]; intros n acc Hn Hacc; [auto|].
  left. cbn [str_acc].
  assert (Hd : 0 <= n mod 10 <= 9) by (pose proof (Z.mod_pos_bound n 10); lia).
  pose proof (ord_digit _ Hd) as Hord.
  set (c := ascii_of_N (Z.to_N (48 + n mod 10))) in *.
  assert (Hc : Py.is_digit c = true).
  { unfold Py.is_digit. rewrite Hord.
    apply andb_true_iff; rewrite !Z.leb_le; lia. }
  assert (Hacc' : Py.all Py.is_digit (String c acc) = true).
  { cbn [Py.all]. now rewrite Hc, Hacc. }
  destruct (n / 10 =? 0) eqn:Hq.
  - apply isdigit_spec; split; [discriminate | exact Hacc'].
  - destruct (IH (n / 10) _ (Z.div_pos n 10 Hn ltac:(lia)) Hacc') as [H|H];
      [exact H|subst f].
    apply isdigit_spec; split; [discriminate | exact Hacc'].
Qed.

Lemma str_isdigit (n : Z) : 0 <= n -> Py.isdigit (str n) = true.
Proof.
  intros Hn. unfold str.
  destruct (str_acc_digits (S (Z.to_nat (Z.log2 n))) n "" Hn eq_refl)
    as [H|H]; [exact H | discriminate].
Qed.

(** Reading back what [str_acc] wrote: the digits of [n] are shifted in
    behind whatever was read before. *)
Lemma int_acc_str_acc (fuel : nat) (n : Z) (acc : string) :
  0 <= n < 2 ^ Z.of_nat fuel ->
  exists k, 0 <= k /\
    forall a, Py.int_acc a (str_acc fuel n acc)
              = Py.int_acc (a * 10 ^ k + n) acc.
Proof.
  revert n acc; induction fuel as [|f IH]; intros n acc Hn.
  - exists 0; split; [lia|]. intros a. cbn [str_acc].
    change (2 ^ Z.of_nat 0) with 1 in Hn.
    f_equal. lia.
  - assert (Hd : 0 <= n mod 10 <= 9)
      by (pose proof (Z.mod_pos_bound n 10); lia).
    pose proof (Z.div_mod n 10 ltac:(lia)) as Hdm.
    pose proof (ord_digit _ Hd) as Hord.
    cbn [str_acc].
    set (c := ascii_of_N (Z.to_N (48 + n mod 10))) in *.
    destruct (n / 10 =? 0) eqn:Hq.
    + exists 1; split; [lia|]. intros a. cbn [Py.int_acc].
      unfold Py.digit_val. rewrite Hord.
      apply Z.eqb_eq in Hq. f_equal. lia.
    + assert (Hn' : 0 <= n / 10 < 2 ^ Z.of_nat f).
      { split; [apply Z.div_pos; lia|].
        apply Z.div_lt_upper_bound; [lia|].
        rewrite Nat2Z.inj_succ, Z.pow_succ_r in Hn by lia. lia. }
      destruct (IH (n / 10) (String c acc) Hn') as (k & Hk & Hr).
      exists (k + 1); split; [lia|]. intros a.
      rewrite Hr. cbn [Py.int_acc].
      unfold Py.digit_val. rewrite Hord.
      f_equal. rewrite Z.pow_add_r by lia. lia.
Qed.

Lemma int_str (n : Z) : 0 <= n -> Py.int_value (str n) = n.
Proof.
  intros Hn. unfold Py.int_value, str.
  destruct (int_acc_str_acc (S (Z.to_nat (Z.log2 n))) n "") as (k & _ & Hr).
  - split; [assumption|].
    destruct (Z.eq_dec n 0) as [->|Hnz]; [reflexivity|].
    rewrite Nat2Z.inj_succ, Z2Nat.id by apply Z.log2_nonneg.
    apply Z.log2_spec; lia.
  - rewrite Hr. cbn [Py.int_acc]. lia.
Qed.

(** A digit string of length [L] denotes a number below [10 ^ L]. *)
Lemma int_acc_bound (s : string) (acc : Z) :
  Py.all Py.is_digit s = true -> 0 <= acc ->
  Py.int_acc acc s
  < (acc + 1) * 10 ^ Z.of_nat (String.length s).
Proof.
  revert acc; induction s as [|c s IH]; cbn [Py.all Py.int_acc String.length];
    intros acc Hs Hacc.
  - change (10 ^ Z.of_nat 0) with 1. lia.
  - apply andb_true_iff in Hs as [Hc Hs].
    pose proof (is_digit_val c Hc) as Hd.
    specialize (IH (10 * acc + Py.digit_val c) Hs ltac:(lia)).
    rewrite Nat2Z.inj_succ, Z.pow_succ_r by lia.
    assert (Hp : 0 < 10 ^ Z.of_nat (String.length s))
      by (apply Z.pow_pos_nonneg; lia).
    nia.
Qed.

Lemma int_value_bound (s : string) :
  Py.isdigit s = true ->
  0 <= Py.int_value s < 10 ^ Z.of_nat (String.length s).
Proof.
  intros H. split; [now apply int_nonneg|].
  apply isdigit_spec in H as [_ H].
  pose proof (int_acc_bound s 0 H ltac:(lia)) as B.
  unfold Py.int_value. lia.
Qed.

(** The decimal form of a number below [10 ^ L] has at most [L] digits. *)
Lemma str_acc_length (fuel : nat) (n : Z) (acc : string) (L : nat) :
  0 <= n < 10 ^ Z.of_nat L -> (1 <= L)%nat ->
  (String.length (str_acc fuel n acc) <= L + String.length acc)%nat.
Proof.
  revert n acc L; induction fuel as [|f IH]; intros n acc L Hn HL;
    cbn [str_acc]; [lia|].
  set (c := ascii_of_N (Z.to_N (48 + n mod 10))).
  destruct (Z.eqb_spec (n / 10) 0) as [E|E].
  - cbn [String.length]. lia.
  - destruct L as [|[|L]]; [lia| |].
    + exfalso. apply E. apply Z.div_small. change (10 ^ Z.of_nat 1) with 10 in Hn.
      lia.
    + assert (Hq : 0 <= n / 10 < 10 ^ Z.of_nat (S L)).
      { split; [apply Z.div_pos; lia|].
        apply Z.div_lt_upper_bound; [lia|].
        rewrite (Nat2Z.inj_succ (S L)), Z.pow_succ_r in Hn by lia. lia. }
      specialize (IH (n / 10) (String c acc) (S L) Hq ltac:(lia)).
      cbn [String.length] in IH. lia.
Qed.

Lemma str_length (n : Z) (L : nat) :
  0 <= n < 10 ^ Z.of_nat L -> (1 <= L)%nat ->
  (String.length (str n) <= L)%nat.
Proof.
  intros Hn HL. unfold str.
  pose proof (str_acc_length (S (Z.to_nat (Z.log2 n))) n "" L Hn HL) as H.
  cbn [String.length] in H. lia.
Qed.

(** The decimal form of the value of a digit string is no longer than
    the string. *)
Lemma str_int_value_short (g : string) :
  Py.isdigit g = true -> short g -> short (str (Py.int_value g)).
Proof.
  unfold short. intros Hg Hs.
  pose proof (int_value_bound g Hg) as B.
  assert (HL : (1 <= String.length g)%nat).
  { apply isdigit_spec in Hg as [Hne _]. destruct g; [congruence|].
    cbn [String.length]. lia. }
  pose proof (str_length _ _ B HL). lia.
Qed.

(** ** [split] and [join] *)

Lemma split_nonempty (sep : ascii) (s : string) : Py.split sep s <> [].
Proof.
  destruct s as [|c s]; simpl; [discriminate|].
  destruct (Ascii.eqb c sep); [discriminate|].
  destruct (Py.split sep s); discriminate.
Qed.

Lemma join_split (s : string) : Py.join "." (Py.split "." s) = s.
Proof.
  induction s as [|c s IH]; [reflexivity|].
  simpl Py.split. destruct (Ascii.eqb_spec c ".") as [->|Hc].
  - pose proof (split_nonempty "." s) as Hne.
    destruct (Py.split "." s) as [|h t]; [congruence|].
    change (Py.join "." ("" :: h :: t))
      with ("" ++ "." ++ Py.join "." (h :: t)).
    now rewrite IH.
  - pose proof (split_nonempty "." s) as Hne.
    destruct (Py.split "." s) as [|h t]; [congruence|].
    destruct t as [|h' t]; simpl in *; now rewrite <- IH.
Qed.

(** ** Laws of the comparison combinators *)

Ltac cases_ltb :=
  rewrite ?Z.gtb_ltb in *;
  repeat match goal with
         | H : context [_ <? _] |- _ => revert H
         | H : context [_ =? _] |- _ => revert H
         end;
  repeat match goal with
         | |- context [?a <? ?b] => destruct (Z.ltb_spec a b)
         | |- context [?a =? ?b] => destruct (Z.eqb_spec a b)
         end;
  cbv beta iota.

Lemma cmp_int_laws : cmp_laws cmp_int.
Proof.
  split; unfold cmp_int; intros; cases_ltb; lia.
Qed.

Section Laws.
Context {A B : Type}.
Variables (c1 : A -> A -> Z) (c2 : B -> B -> Z).
Hypothesis L1 : cmp_laws c1.
Hypothesis L2 : cmp_laws c2.

(** Equivalence is a congruence on the right as well. *)
Lemma cl_cong_r (x y z : A) : c1 y z = 0 -> c1 x y = c1 x z.
Proof.
  intros H.
  assert (Hzy : c1 z y = 0) by (rewrite (cl_opp c1 L1 y z); lia).
  pose proof (cl_cong c1 L1 z y x Hzy) as E.
  rewrite (cl_opp c1 L1 x z), (cl_opp c1 L1 x y) in E. lia.
Qed.

Lemma cmp_pair_laws : cmp_laws (cmp_pair c1 c2).
Proof.
  split; unfold cmp_pair.
  - intros [x1 x2] [y1 y2]; simpl.
    pose proof (cl_range c1 L1 x1 y1); pose proof (cl_range c2 L2 x2 y2).
    cases_ltb; lia.
  - intros [x1 x2]; simpl.
    rewrite (cl_refl c1 L1), (cl_refl c2 L2). reflexivity.
  - intros [x1 x2] [y1 y2]; simpl.
    rewrite (cl_opp c1 L1 x1 y1), (cl_opp c2 L2 x2 y2).
    cases_ltb; lia.
  - intros [x1 x2] [y1 y2] [z1 z2]; simpl.
    destruct (Z.eqb_spec (c1 x1 y1) 0) as [Exy|Nxy];
      destruct (Z.eqb_spec (c1 y1 z1) 0) as [Eyz|Nyz]; intros Hxy Hyz.
    + rewrite (cl_cong c1 L1 _ _ z1 Exy), Eyz. simpl.
      eapply (cl_trans c2 L2); eassumption.
    + rewrite (cl_cong c1 L1 _ _ z1 Exy), Hyz. reflexivity.
    + rewrite <- (cl_cong_r x1 y1 z1 Eyz), Hxy. reflexivity.
    + rewrite (cl_trans c1 L1 _ _ _ Hxy Hyz). reflexivity.
  - intros [x1 x2] [y1 y2] [z1 z2]; simpl.
    destruct (Z.eqb_spec (c1 x1 y1) 0) as [Exy|Nxy]; intros Hxy;
      [|contradiction].
    now rewrite (cl_cong c1 L1 _ _ z1 Exy), (cl_cong c2 L2 _ _ z2 Hxy).
Qed.

Lemma cmp_list_laws : cmp_laws (cmp_list c1).
Proof.
  split.
  - induction x as [|x a IH]; destruct y as [|y b]; simpl; auto.
    pose proof (cl_range c1 L1 x y).
    destruct (Z.eqb_spec (c1 x y) 0); [apply IH | lia].
  - induction x as [|x a IH]; simpl; [reflexivity|].
    now rewrite (cl_refl c1 L1).
  - induction x as [|x a IH]; destruct y as [|y b]; simpl; auto.
    rewrite (cl_opp c1 L1 x y), (IH b).
    cases_ltb; lia.
  - induction x as [|x a IH]; destruct y as [|y b]; destruct z as [|z c];
      simpl; try discriminate; auto.
    destruct (Z.eqb_spec (c1 x y) 0) as [Exy|Nxy];
      destruct (Z.eqb_spec (c1 y z) 0) as [Eyz|Nyz]; intros Hxy Hyz.
    + rewrite (cl_cong c1 L1 _ _ z Exy), Eyz. simpl.
      eapply IH; eassumption.
    + rewrite (cl_cong c1 L1 _ _ z Exy), Hyz. reflexivity.
    + rewrite <- (cl_cong_r x y z Eyz), Hxy. reflexivity.
    + rewrite (cl_trans c1 L1 _ _ _ Hxy Hyz). reflexivity.
  - induction x as [|x a IH]; destruct y as [|y b]; destruct z as [|z c];
      simpl; try discriminate; auto.
    destruct (Z.eqb_spec (c1 x y) 0) as [Exy|Nxy]; intros Hxy;
      [|contradiction].
    now rewrite (cl_cong c1 L1 _ _ z Exy), (IH b c Hxy).
Qed.

Lemma cmp_absent_top_laws : cmp_laws (cmp_absent_top c1).
Proof.
  split.
  - intros [x|] [y|]; simpl; auto. apply (cl_range c1 L1).
  - intros [x|]; simpl; auto. apply (cl_refl c1 L1).
  - intros [x|] [y|]; simpl; auto. apply (cl_opp c1 L1).
  - intros [x|] [y|] [z|]; simpl; try discriminate; auto.
    apply (cl_trans c1 L1).
  - intros [x|] [y|] [z|]; simpl; try discriminate; auto.
    apply (cl_cong c1 L1).
Qed.

(** Consequences used below. *)
Lemma cl_lt_gt (x y : A) : c1 x y = 1 <-> c1 y x = -1.
Proof. rewrite (cl_opp c1 L1 x y). lia. Qed.

Lemma cl_eq_sym (x y : A) : c1 x y = 0 <-> c1 y x = 0.
Proof. rewrite (cl_opp c1 L1 x y). lia. Qed.
End Laws.

(** ** Order on strings and on identifiers *)

Lemma string_compare_refl (s : string) : String.compare s s = Eq.
Proof.
  induction s as [|c s IH]; simpl; [reflexivity|].
  unfold Ascii.compare. now rewrite N.compare_refl.
Qed.

Lemma string_compare_lt_trans (x y z : string) :
  String.compare x y = Lt -> String.compare y z = Lt ->
  String.compare x z = Lt.
Proof.
  revert y z; induction x as [|a x IH]; intros [|b y] [|c z]; simpl;
    try discriminate; auto.
  unfold Ascii.compare.
  destruct (N.compare_spec (N_of_ascii a) (N_of_ascii b)) as [Eab|Lab|Gab];
    destruct (N.compare_spec (N_of_ascii b) (N_of_ascii c)) as [Ebc|Lbc|Gbc];
    try discriminate; intros Hxy Hyz.
  - rewrite Eab, Ebc, N.compare_refl. eapply IH; eassumption.
  - rewrite Eab. now apply N.compare_lt_iff in Lbc as ->.
  - rewrite <- Ebc. now apply N.compare_lt_iff in Lab as ->.
  - assert (H : (N_of_ascii a < N_of_ascii c)%N) by lia.
    now apply N.compare_lt_iff in H as ->.
Qed.

(** Three-way comparison of strings as the pair of tests
    [xa > xb] / [xa < xb] performs it. *)
Lemma str_tests_compare (x y : string) :
  (if Py.str_gt x y then Some 1
   else if Py.str_lt x y then Some (-1) else None)
  = match String.compare x y with
    | Gt => Some 1
    | Lt => Some (-1)
    | Eq => None
    end.
Proof. unfold Py.str_gt, Py.str_lt. now destruct (String.compare x y). Qed.

Lemma ident_step_range (x y : string) (r : Z) :
  ident_step_value x y = Some r -> r = 1 \/ r = -1.
Proof.
  unfold ident_step_value. rewrite str_tests_compare.
  destruct (Py.isdigit x), (Py.isdigit y); simpl;
    try (intros Hr; inversion Hr; auto; fail).
  - cases_ltb; intros Hr; inversion Hr; auto.
  - destruct (String.compare x y); intros Hr; inversion Hr; auto.
Qed.

Lemma ident_cmp_laws : cmp_laws ident_cmp.
Proof.
  split; unfold ident_cmp, ident_step_value; intros;
    rewrite ?str_tests_compare in *.
  - destruct (Py.isdigit x), (Py.isdigit y); simpl; auto.
    + cases_ltb; auto.
    + destruct (String.compare x y); auto.
  - destruct (Py.isdigit x); simpl.
    + cases_ltb; lia.
    + now rewrite string_compare_refl.
  - rewrite (String.compare_antisym y x).
    destruct (Py.isdigit x), (Py.isdigit y); simpl; auto.
    + cases_ltb; lia.
    + destruct (String.compare x y); reflexivity.
  - destruct (Py.isdigit x), (Py.isdigit y), (Py.isdigit z);
      simpl in *; try discriminate; auto.
    + cases_ltb; try discriminate; lia.
    + destruct (String.compare x y) eqn:Hxy; try discriminate.
      destruct (String.compare y z) eqn:Hyz; try discriminate.
      rewrite String.compare_antisym in Hxy, Hyz.
      assert (Hzx : String.compare z x = Lt).
      { apply (string_compare_lt_trans z y x).
        - destruct (String.compare z y); simpl in Hyz; congruence.
        - destruct (String.compare y x); simpl in Hxy; congruence. }
      rewrite String.compare_antisym, Hzx. reflexivity.
  - destruct (Py.isdigit x), (Py.isdigit y); simpl in *; try discriminate.
    + destruct (Py.isdigit z); simpl; auto.
      cases_ltb; try discriminate; lia.
    + destruct (String.compare x y) eqn:Hxy; try discriminate.
      apply String.compare_eq_iff in Hxy; subst. reflexivity.
Qed.

Lemma cmp_key_laws : cmp_laws cmp_key.
Proof.
  unfold cmp_key.
  repeat apply cmp_pair_laws; try apply cmp_int_laws.
  apply cmp_absent_top_laws, cmp_list_laws, ident_cmp_laws.
Qed.

(** ** The loop body: what it returns and when *)

Lemma ident_step_sound (xa xb : string) (r : option Z) :
  ident_step xa xb = Ok r -> ident_step_value xa xb = r.
Proof.
  unfold ident_step, ident_step_value, bind.
  destruct (Py.isdigit xa && Py.isdigit xb).
  - destruct (Py.int xa) as [na|] eqn:Ea; [|discriminate].
    destruct (Py.int xb) as [nb|] eqn:Eb; [|discriminate].
    apply int_ok in Ea as [_ ->], Eb as [_ ->]. now intros [= <-].
  - destruct (Py.isdigit xa); [now intros [= <-]|].
    destruct (Py.isdigit xb); now intros [= <-].
Qed.

(** The body returns as soon as the tokens that are converted are
    within the limit. *)
Lemma ident_step_short (xa xb : string) :
  (Py.isdigit xa = true -> Py.isdigit xb = true -> short xa /\ short xb) ->
  ident_step xa xb = Ok (ident_step_value xa xb).
Proof.
  unfold ident_step, ident_step_value, bind. intros H.
  destruct (Py.isdigit xa), (Py.isdigit xb); cbn [andb]; try reflexivity.
  destruct (H eq_refl eq_refl) as [Sa Sb].
  now rewrite (int_short _ Sa), (int_short _ Sb).
Qed.

(** It raises exactly when both tokens are all digits and one of them
    exceeds the limit. *)
Lemma ident_step_raises (xa xb : string) :
  ident_step xa xb = ValueError <->
  Py.isdigit xa = true /\ Py.isdigit xb = true
  /\ ~ (short xa /\ short xb).
Proof.
  split.
  - intros H.
    destruct (Py.isdigit xa) eqn:Da, (Py.isdigit xb) eqn:Db;
      try (rewrite ident_step_short in H; [discriminate | congruence]).
    repeat split. intros Hs.
    rewrite ident_step_short in H; [discriminate | auto].
  - intros (Da & Db & Hn). unfold ident_step, bind. rewrite Da, Db.
    cbn [andb].
    destruct (Py.int xa) as [na|] eqn:Ea; [|reflexivity].
    destruct (Py.int xb) as [nb|] eqn:Eb; [|reflexivity].
    apply int_ok in Ea as [Sa _], Eb as [Sb _]. tauto.
Qed.

(** ** The loops compute the structural comparison *)

Lemma nth_middle_app (pa a : list string) (x : string) :
  nth (List.length pa) (pa ++ x :: a) EmptyString = x.
Proof. induction pa as [|y pa IH]; simpl; auto. Qed.

(** Whatever the prerelease loop returns is the structural comparison
    of the part of the lists not yet visited. *)
Lemma pre_loop_sound (a b pa pb : list string) (out : option Z) :
  List.length pa = List.length pb ->
  pre_loop (pa ++ a) (pb ++ b) (List.length pa)
    (Nat.max (List.length a) (List.length b)) = Ok out ->
  out = if cmp_list ident_cmp a b =? 0 then None
        else Some (cmp_list ident_cmp a b).
Proof.
  revert b pa pb; induction a as [|x a IH]; intros [|y b] pa pb Hlen.
  - cbn. now intros [= <-].
  - cbn [List.length Nat.max pre_loop cmp_list].
    rewrite app_nil_r, Nat.leb_refl. now intros [= <-].
  - cbn [List.length Nat.max pre_loop cmp_list].
    rewrite app_nil_r, <- Hlen, Nat.leb_refl, length_app.
    cbn [List.length].
    destruct (Nat.leb_spec (List.length pa + S (List.length a))
                (List.length pa)); [lia | now intros [= <-]].
  - cbn [List.length Nat.max pre_loop cmp_list].
    rewrite !length_app; cbn [List.length].
    destruct (Nat.leb_spec (List.length pa + S (List.length a))
                (List.length pa)); [lia|].
    destruct (Nat.leb_spec (List.length pb + S (List.length b))
                (List.length pa)); [lia|].
    rewrite nth_middle_app, Hlen, nth_middle_app, <- Hlen.
    unfold bind.
    destruct (ident_step x y) as [step|] eqn:Hs; [|discriminate].
    apply ident_step_sound in Hs.
    assert (Hc : ident_cmp x y
                 = match step with Some r => r | None => 0 end)
      by (unfold ident_cmp; now rewrite Hs).
    rewrite Hc; clear Hc. destruct step as [r|].
    + intros [= <-].
      destruct (ident_step_range _ _ _ Hs); subst; reflexivity.
    + cbn [Z.eqb].
      replace (pa ++ x :: a)%list with ((pa ++ [x]) ++ a)%list
        by (now rewrite <- app_assoc).
      replace (pb ++ y :: b)%list with ((pb ++ [y]) ++ b)%list
        by (now rewrite <- app_assoc).
      replace (S (List.length pa)) with (List.length (pa ++ [x])%list)
        by (rewrite length_app; simpl; lia).
      apply IH. rewrite !length_app; simpl; lia.
Qed.

Lemma pre_loop_returns (a b pa pb : list string) :
  List.length pa = List.length pb ->
  convertible a -> convertible b ->
  pre_loop (pa ++ a) (pb ++ b) (List.length pa)
    (Nat.max (List.length a) (List.length b)) <> ValueError.
Proof.
  revert b pa pb; induction a as [|x a IH]; intros [|y b] pa pb Hlen Ha Hb.
  - discriminate.
  - cbn [List.length Nat.max pre_loop].
    rewrite app_nil_r, Nat.leb_refl. discriminate.
  - cbn [List.length Nat.max pre_loop].
    rewrite app_nil_r, <- Hlen, Nat.leb_refl, length_app.
    cbn [List.length].
    destruct (Nat.leb_spec (List.length pa + S (List.length a))
                (List.length pa)); [lia | discriminate].
  - cbn [List.length Nat.max pre_loop].
    rewrite !length_app; cbn [List.length].
    destruct (Nat.leb_spec (List.length pa + S (List.length a))
                (List.length pa)); [lia|].
    destruct (Nat.leb_spec (List.length pb + S (List.length b))
                (List.length pa)); [lia|].
    rewrite nth_middle_app, Hlen, nth_middle_app, <- Hlen.
    inversion Ha as [|? ? Hx Ha']; inversion Hb as [|? ? Hy Hb']; subst.
    rewrite ident_step_short by auto. unfold bind.
    destruct (ident_step_value x y); [discriminate|].
    replace (pa ++ x :: a)%list with ((pa ++ [x]) ++ a)%list
      by (now rewrite <- app_assoc).
    replace (pb ++ y :: b)%list with ((pb ++ [y]) ++ b)%list
      by (now rewrite <- app_assoc).
    replace (S (List.length pa)) with (List.length (pa ++ [x])%list)
      by (rewrite length_app; simpl; lia).
    apply IH; auto. rewrite !length_app; simpl; lia.
Qed.

Lemma pre_loop_structural (a b : list string) :
  convertible a -> convertible b ->
  pre_loop a b 0 (Nat.max (List.length a) (List.length b))
  = Ok (if cmp_list ident_cmp a b =? 0 then None
        else Some (cmp_list ident_cmp a b)).
Proof.
  intros Ha Hb.
  pose proof (pre_loop_returns a b [] [] eq_refl Ha Hb) as Hr.
  pose proof (pre_loop_sound a b [] []) as Hs.
  cbn [app List.length] in Hr, Hs.
  destruct (pre_loop a b 0 (Nat.max (List.length a) (List.length b)))
    as [out|]; [|congruence].
  now rewrite (Hs out eq_refl eq_refl).
Qed.

(** Whatever [compare_parsed] returns is the lexicographic comparison
    of the keys. *)
Lemma compare_parsed_sound (pa pb : version) (r : Z) :
  compare_parsed pa pb = Ok r -> r = cmp_key (key pa) (key pb).
Proof.
  unfold compare_parsed, cmp_key, key, cmp_pair, cmp_int.
  cbn [seq release_loop component fst snd].
  destruct (major pa >? major pb); [now intros [= <-]|].
  destruct (major pa <? major pb); [now intros [= <-]|].
  destruct (minor pa >? minor pb); [now intros [= <-]|].
  destruct (minor pa <? minor pb); [now intros [= <-]|].
  destruct (patch pa >? patch pb); [now intros [= <-]|].
  destruct (patch pa <? patch pb); [now intros [= <-]|].
  cbn [Z.eqb].
  destruct (pre pa) as [a|], (pre pb) as [b|]; cbn [cmp_absent_top];
    try (now intros [= <-]).
  unfold bind.
  destruct (pre_loop a b 0 (Nat.max (List.length a) (List.length b)))
    as [out|] eqn:Hl; [|discriminate].
  pose proof (pre_loop_sound a b [] [] out eq_refl Hl) as ->.
  destruct (Z.eqb_spec (cmp_list ident_cmp a b) 0); intros [= <-]; congruence.
Qed.

Lemma short_numbers_convertible (v : version) (ids : list string) :
  short_numbers v -> pre v = Some ids -> convertible ids.
Proof.
  intros H E. apply Forall_forall. intros t Ht. now apply (H ids t).
Qed.

(** It returns when the all-digit identifiers are within the limit. *)
Lemma compare_parsed_structural (pa pb : version) :
  short_numbers pa -> short_numbers pb ->
  compare_parsed pa pb = Ok (cmp_key (key pa) (key pb)).
Proof.
  intros Ha Hb.
  assert (Hr : compare_parsed pa pb <> ValueError).
  { unfold compare_parsed.
    destruct (release_loop pa pb (seq 0 3)); [discriminate|].
    destruct (pre pa) as [a|] eqn:Ea, (pre pb) as [b|] eqn:Eb;
      try discriminate.
    rewrite (pre_loop_structural a b
               (short_numbers_convertible pa a Ha Ea)
               (short_numbers_convertible pb b Hb Eb)).
    unfold bind. destruct (cmp_list ident_cmp a b =? 0); cbn; discriminate. }
  destruct (compare_parsed pa pb) as [r|] eqn:E; [|congruence].
  now rewrite (compare_parsed_sound pa pb r E).
Qed.

Lemma compare_parsed_range (pa pb : version) (r : Z) :
  compare_parsed pa pb = Ok r -> r = -1 \/ r = 0 \/ r = 1.
Proof.
  intros H. rewrite (compare_parsed_sound _ _ _ H).
  apply (cl_range _ cmp_key_laws).
Qed.

(** ** Facts shared by the properties below *)

Lemma compare_semver_parsed (a b : string) (pa pb : version) :
  parse_semver a = Ok (Some pa) -> parse_semver b = Ok (Some pb) ->
  compare_semver a b = (r <- compare_parsed pa pb ;; Ok (Some r)).
Proof. unfold compare_semver. now intros -> ->. Qed.

(** Once the release triples agree, the prerelease fields decide. *)
Lemma compare_parsed_same_release (pa pb : version) :
  major pa = major pb -> minor pa = minor pb -> patch pa = patch pb ->
  compare_parsed pa pb
  = match pre pa, pre pb with
    | None, None => Ok 0
    | None, Some _ => Ok 1
    | Some _, None => Ok (-1)
    | Some a_pre, Some b_pre =>
        out <- pre_loop a_pre b_pre 0
                 (Nat.max (List.length a_pre) (List.length b_pre)) ;;
        match out with
        | Some r => Ok r
        | None => Ok 0
        end
    end.
Proof.
  intros H1 H2 H3. unfold compare_parsed.
  cbn [seq release_loop component].
  now rewrite H1, H2, H3, !Z.gtb_ltb, !Z.ltb_irrefl.
Qed.

(** Indices that tie are passed over. *)
Lemma pre_loop_skip (a b : list string) (i k n : nat) :
  (forall j, (k <= j < k + i)%nat ->
     tie (nth j a EmptyString) (nth j b EmptyString)) ->
  (k + i <= List.length a)%nat -> (k + i <= List.length b)%nat ->
  pre_loop a b k (i + n) = pre_loop a b (k + i) n.
Proof.
  revert k; induction i as [|i IH]; intros k Ht Ha Hb.
  - now rewrite Nat.add_0_r.
  - cbn [Nat.add pre_loop].
    destruct (Nat.leb_spec (List.length a) k); [lia|].
    destruct (Nat.leb_spec (List.length b) k); [lia|].
    rewrite (Ht k ltac:(lia)). cbn [bind].
    rewrite IH; [f_equal; lia | | lia | lia].
    intros j Hj. apply Ht. lia.
Qed.

(** A loop that ends without a result has visited only ties, all of
    them inside both lists. *)
Lemma pre_loop_none (a b : list string) (k n : nat) :
  pre_loop a b k n = Ok None ->
  forall j, (k <= j < k + n)%nat ->
    (j < List.length a)%nat /\ (j < List.length b)%nat
    /\ tie (nth j a EmptyString) (nth j b EmptyString).
Proof.
  revert k; induction n as [|n IH]; intros k H j Hj; [lia|].
  cbn [pre_loop] in H.
  destruct (Nat.leb_spec (List.length a) k); [discriminate|].
  destruct (Nat.leb_spec (List.length b) k); [discriminate|].
  unfold bind in H.
  destruct (ident_step (nth k a "") (nth k b "")) as [[r|]|] eqn:Hs;
    try discriminate.
  destruct (Nat.eq_dec j k) as [->|Hne]; [auto|].
  apply (IH (S k) H). lia.
Qed.
(** ** Lexicographic order by code point *)

Lemma string_compare_first_diff (p r1 r2 : string) (c1 c2 : ascii) :
  Py.ord c1 < Py.ord c2 ->
  String.compare (p ++ String c1 r1) (p ++ String c2 r2) = Lt.
Proof.
  intros Hc. induction p as [|c p IH]; simpl.
  - unfold Ascii.compare.
    assert (H : (N_of_ascii c1 < N_of_ascii c2)%N)
      by (unfold Py.ord in Hc; lia).
    now apply N.compare_lt_iff in H as ->.
  - unfold Ascii.compare at 1. now rewrite N.compare_refl.
Qed.

Lemma string_compare_proper_prefix (x r : string) (c : ascii) :
  String.compare x (x ++ String c r) = Lt.
Proof.
  induction x as [|a x IH]; simpl; [reflexivity|].
  unfold Ascii.compare at 1. now rewrite N.compare_refl.
Qed.

(** Outcome of one loop body when neither token is numeric. *)
Lemma ident_cmp_alpha (xa xb : string) :
  Py.isdigit xa = false -> Py.isdigit xb = false ->
  ident_cmp xa xb = match String.compare xa xb with
                    | Lt => -1
                    | Eq => 0
                    | Gt => 1
                    end.
Proof.
  intros Ha Hb. unfold ident_cmp, ident_step_value.
  rewrite Ha, Hb, str_tests_compare; simpl.
  now destruct (String.compare xa xb).
Qed.

Lemma ident_cmp_numeric (xa xb : string) :
  Py.isdigit xa = true -> Py.isdigit xb = true ->
  ident_cmp xa xb = cmp_int (Py.int_value xa) (Py.int_value xb).
Proof.
  intros Ha Hb. unfold ident_cmp, ident_step_value, cmp_int.
  rewrite Ha, Hb; simpl.
  destruct (Py.int_value xa >? Py.int_value xb); [reflexivity|].
  now destruct (Py.int_value xa <? Py.int_value xb).
Qed.

Lemma split_app (sep : ascii) (u v : string) :
  Py.split sep (u ++ String sep v)
  = (Py.split sep u ++ Py.split sep v)%list.
Proof.
  induction u as [|c u IH]; simpl.
  - now rewrite Ascii.eqb_refl.
  - destruct (Ascii.eqb c sep); rewrite IH; [reflexivity|].
    pose proof (split_nonempty sep u) as Hne.
    destruct (Py.split sep u) as [|h t]; [congruence | reflexivity].
Qed.

(** ** Well-formed strings parse *)

(** A release, optionally followed by a prerelease segment, parses to
    the values of its digit strings and the pieces of the segment. *)
Lemma parse_semver_canonical (d1 d2 d3 : string) (op : option string) :
  Py.isdigit d1 = true -> Py.isdigit d2 = true -> Py.isdigit d3 = true ->
  short d1 -> short d2 -> short d3 ->
  (forall p, op = Some p ->
     p <> EmptyString /\ Py.all Py.is_seg_char p = true) ->
  parse_semver (d1 ++ "." ++ d2 ++ "." ++ d3 ++ segment "-" op)
  = Ok (Some (mkVersion (Py.int_value d1) (Py.int_value d2)
                (Py.int_value d3) (option_map (Py.split ".") op))).
Proof.
  intros D1 D2 D3 S1 S2 S3 Hp. apply parse_semver_groups.
  exists (mkGroups d1 d2 d3 op None).
  split; [|split; [repeat split; assumption | reflexivity]].
  exists EmptyString; simpl.
  split; [now rewrite append_nil_r|].
  split; [now left|].
  do 3 (split; [assumption|]).
  split; [assumption | discriminate].
Qed.

Lemma serialize_groups (m : groups) :
  serialize (version_of_groups m)
  = str (Py.int_value (g_major m)) ++ "." ++ str (Py.int_value (g_minor m))
    ++ "." ++ str (Py.int_value (g_patch m)) ++ segment "-" (g_pre m).
Proof.
  unfold serialize, version_of_groups; cbn [major minor patch pre].
  destruct (g_pre m) as [p|]; cbn [option_map segment]; [|reflexivity].
  now rewrite join_split.
Qed.

(** ** Build metadata *)

Lemma all_impl (p q : ascii -> bool) (s : string) :
  (forall c, p c = true -> q c = true) ->
  Py.all p s = true -> Py.all q s = true.
Proof.
  intros Hpq. induction s as [|c s IH]; simpl; [reflexivity|].
  intros H; apply andb_true_iff in H as [Hc Hs].
  now rewrite (Hpq c Hc), (IH Hs).
Qed.







(** Appending build metadata to a release with an optional prerelease
    segment leaves the parsed version unchanged. *)
Lemma parse_semver_with_build (d1 d2 d3 b : string) (op : option string) :
  Py.isdigit d1 = true -> Py.isdigit d2 = true -> Py.isdigit d3 = true ->
  short d1 -> short d2 -> short d3 ->
  (forall p, op = Some p ->
     p <> EmptyString /\ Py.all Py.is_seg_char p = true) ->
  b <> EmptyString -> Py.all Py.is_seg_char b = true ->
  parse_semver ((d1 ++ "." ++ d2 ++ "." ++ d3 ++ segment "-" op)
                ++ String "+" b)
  = parse_semver (d1 ++ "." ++ d2 ++ "." ++ d3 ++ segment "-" op).
Proof.
  intros D1 D2 D3 S1 S2 S3 Hp Hb Hall.
  rewrite (parse_semver_canonical d1 d2 d3 op D1 D2 D3 S1 S2 S3 Hp).
  apply parse_semver_groups.
  exists (mkGroups d1 d2 d3 op (Some b)).
  split; [|split; [repeat split; assumption | reflexivity]].
  exists EmptyString; cbn [g_major g_minor g_patch g_pre g_build segment].
  split; [now rewrite !append_assoc, append_nil_r|].
  split; [now left|].
  do 3 (split; [assumption|]).
  split; [assumption|]. intros b' [= <-]. auto.
Qed.

(** ** Prerelease lists of two parsed strings *)

Lemma compare_semver_prerelease (a b : string) (pa pb : version)
  (ia ib : list string) :
  parse_semver a = Ok (Some pa) -> parse_semver b = Ok (Some pb) ->
  major pa = major pb -> minor pa = minor pb -> patch pa = patch pb ->
  pre pa = Some ia -> pre pb = Some ib ->
  compare_semver a b
  = (out <- pre_loop ia ib 0 (Nat.max (List.length ia) (List.length ib)) ;;
     Ok (Some (match out with Some r => r | None => 0 end))).
Proof.
  intros Pa Pb H1 H2 H3 Ia Ib.
  rewrite (compare_semver_parsed a b pa pb Pa Pb),
    (compare_parsed_same_release pa pb H1 H2 H3), Ia, Ib.
  destruct (pre_loop ia ib 0 (Nat.max (List.length ia) (List.length ib)))
    as [[r|]|]; reflexivity.
Qed.

Lemma string_compare_first_diff_gt (p r1 r2 : string) (c1 c2 : ascii) :
  Py.ord c1 > Py.ord c2 ->
  String.compare (p ++ String c1 r1) (p ++ String c2 r2) = Gt.
Proof.
  intros Hc. rewrite String.compare_antisym.
  rewrite string_compare_first_diff by lia. reflexivity.
Qed.

Lemma string_compare_longer (x r : string) (c : ascii) :
  String.compare (x ++ String c r) x = Gt.
Proof.
  rewrite String.compare_antisym, string_compare_proper_prefix.
  reflexivity.
Qed.


(** ** Reaching an index of the prerelease loop *)

(** When the indices below [i] tie and both lists have a token at [i],
    the loop gets to [i] and runs its body there. *)
Lemma pre_loop_reach (a b : list string) (i : nat) (xa xb : string) :
  nth_error a i = Some xa -> nth_error b i = Some xb ->
  (forall j, (j < i)%nat ->
     tie (nth j a EmptyString) (nth j b EmptyString)) ->
  pre_loop a b 0 (Nat.max (List.length a) (List.length b))
  = (step <- ident_step xa xb ;;
     match step with
     | Some r => Ok (Some r)
     | None =>
         pre_loop a b (S i)
           (Nat.max (List.length a) (List.length b) - S i)
     end).
Proof.
  intros Xa Xb Ht.
  assert (La : (i < List.length a)%nat)
    by (apply nth_error_Some; congruence).
  assert (Lb : (i < List.length b)%nat)
    by (apply nth_error_Some; congruence).
  set (n := Nat.max (List.length a) (List.length b)).
  assert (En : n = (i + S (n - S i))%nat) by (unfold n; lia).
  rewrite En at 1.
  rewrite (pre_loop_skip a b i 0 (S (n - S i)));
    [|intros j Hj; apply Ht; lia | lia | lia].
  cbn [pre_loop Nat.add].
  apply Nat.leb_gt in La as ->. apply Nat.leb_gt in Lb as ->.
  now rewrite (nth_error_nth a i EmptyString Xa),
    (nth_error_nth b i EmptyString Xb).
Qed.

(** A list that runs out while every index ties is the smaller one. *)
Lemma pre_loop_shorter (a b : list string) :
  (List.length a < List.length b)%nat ->
  (forall j, (j < List.length a)%nat ->
     tie (nth j a EmptyString) (nth j b EmptyString)) ->
  pre_loop a b 0 (Nat.max (List.length a) (List.length b))
  = Ok (Some (-1)).
Proof.
  intros Hl Ht.
  set (la := List.length a). set (n := Nat.max la (List.length b)).
  assert (En : n = (la + S (n - S la))%nat) by (unfold n, la; lia).
  rewrite En.
  rewrite (pre_loop_skip a b la 0 (S (n - S la)));
    [|intros j Hj; apply Ht; unfold la in *; lia | unfold la; lia
     | unfold la; lia].
  cbn [pre_loop Nat.add]. fold la. now rewrite Nat.leb_refl.
Qed.

Lemma pre_loop_longer (a b : list string) :
  (List.length b < List.length a)%nat ->
  (forall j, (j < List.length b)%nat ->
     tie (nth j a EmptyString) (nth j b EmptyString)) ->
  pre_loop a b 0 (Nat.max (List.length a) (List.length b))
  = Ok (Some 1).
Proof.
  intros Hl Ht.
  set (lb := List.length b). set (n := Nat.max (List.length a) lb).
  assert (En : n = (lb + S (n - S lb))%nat) by (unfold n, lb; lia).
  rewrite En.
  rewrite (pre_loop_skip a b lb 0 (S (n - S lb)));
    [|intros j Hj; apply Ht; unfold lb in *; lia | unfold lb; lia
     | unfold lb; lia].
  cbn [pre_loop Nat.add].
  assert (H : (List.length a <=? lb)%nat = false)
    by (apply Nat.leb_gt; unfold lb; lia).
  rewrite H. fold lb. now rewrite Nat.leb_refl.
Qed.

(** The loop falls off its end exactly when the lists are equally long
    and every index ties. *)
Lemma pre_loop_falls_through (a b : list string) :
  pre_loop a b 0 (Nat.max (List.length a) (List.length b)) = Ok None <->
  List.length a = List.length b
  /\ forall j, (j < List.length a)%nat ->
       tie (nth j a EmptyString) (nth j b EmptyString).
Proof.
  split.
  - intros H. pose proof (pre_loop_none a b 0 _ H) as N.
    assert (E : List.length a = List.length b).
    { destruct (Nat.lt_trichotomy (List.length a) (List.length b))
        as [L|[L|L]]; [|assumption|].
      - destruct (N (List.length a)) as (F & _); lia.
      - destruct (N (List.length b)) as (_ & F & _); lia. }
    split; [assumption|]. intros j Hj. apply N. lia.
  - intros [E Ht]. rewrite <- E, Nat.max_id.
    rewrite <- (Nat.add_0_r (List.length a)) at 1.
    rewrite (pre_loop_skip a b (List.length a) 0 0);
      [reflexivity | intros j Hj; apply Ht; lia | lia | lia].
Qed.

(** The loop never returns 0: a tie is reported by falling through. *)
Lemma pre_loop_never_zero (a b : list string) :
  pre_loop a b 0 (Nat.max (List.length a) (List.length b)) <> Ok (Some 0).
Proof.
  intros H.
  pose proof (pre_loop_sound a b [] [] (Some 0) eq_refl H) as S.
  destruct (Z.eqb_spec (cmp_list ident_cmp a b) 0) as [E|E];
    [discriminate | congruence].
Qed.

(** What the loop body returns on two tokens that are not numeric. *)
Lemma ident_step_alpha (xa xb : string) :
  Py.isdigit xa = false -> Py.isdigit xb = false ->
  ident_step xa xb = Ok (match String.compare xa xb with
                         | Lt => Some (-1)
                         | Eq => None
                         | Gt => Some 1
                         end).
Proof.
  intros Ha Hb. unfold ident_step, Py.str_gt, Py.str_lt.
  rewrite Ha, Hb; cbn [andb].
  now destruct (String.compare xa xb).
Qed.

(** What the loop body returns on two numeric tokens within the limit. *)
Lemma ident_step_numeric (xa xb : string) :
  Py.isdigit xa = true -> Py.isdigit xb = true -> short xa -> short xb ->
  ident_step xa xb
  = Ok (if Py.int_value xa >? Py.int_value xb then Some 1
        else if Py.int_value xa <? Py.int_value xb then Some (-1)
        else None).
Proof.
  intros Ha Hb Sa Sb. unfold ident_step.
  rewrite Ha, Hb, (int_short _ Sa), (int_short _ Sb). reflexivity.
Qed.

(** A version whose identifiers are all within the limit, checked by
    computation. *)
Lemma short_numbers_check (v : version) :
  match pre v with
  | None => true
  | Some ids =>
      forallb (fun t => (String.length t <=? Py.int_max_str_digits)%nat) ids
  end = true ->
  short_numbers v.
Proof.
  intros H ids t E I _. rewrite E in H.
  rewrite forallb_forall in H. apply Nat.leb_le, H, I.
Qed.

(** ** Pieces of a dotted segment *)

Lemma split_leading_sep (sep : ascii) (v : string) :
  Py.split sep (String sep v) = EmptyString :: Py.split sep v.
Proof. cbn [Py.split]. now rewrite Ascii.eqb_refl. Qed.

Lemma split_trailing_sep (sep : ascii) (u : string) :
  Py.split sep (u ++ String sep EmptyString)
  = (Py.split sep u ++ [EmptyString])%list.
Proof. apply split_app. Qed.

Lemma split_only_seps (sep : ascii) (k : nat) :
  Py.split sep (Py.replicate k sep) = repeat EmptyString (S k).
Proof.
  induction k as [|k IH]; [reflexivity|].
  cbn [Py.replicate]. rewrite split_leading_sep, IH. reflexivity.
Qed.

(** * The stated properties *)

(** C1 (code defect). The order laws fail at a string that parses: with
    a numeric prerelease identifier of 4301 digits the parse succeeds and
    the comparison of the string with itself raises [ValueError] at the
    conversion of line 72, where the laws, and the docstring of
    [compare_semver], ask for 0. *)
Theorem compare_semver_not_reflexive :
  parse_semver ("1.0.0-" ++ Py.replicate 4301 "1")
  = Ok (Some (mkVersion 1 0 0 (Some [Py.replicate 4301 "1"])))
  /\ compare_semver ("1.0.0-" ++ Py.replicate 4301 "1")
       ("1.0.0-" ++ Py.replicate 4301 "1") = ValueError.
Proof. split; vm_compute; reflexivity. Qed.

(** X18. On strings that parse and whose all-digit prerelease
    identifiers have at most 4300 digits, [compare_semver] obeys the
    order laws: it answers 1, 0 or -1; a string compared with itself
    gives 0; swapping the arguments swaps 1 and -1 and keeps 0; and if
    [a] is greater than [b] and [b] greater than [c], then [a] is greater
    than [c]. *)
Theorem compare_semver_order_laws (a b c : string) (pa pb pc : version) :
  parse_semver a = Ok (Some pa) -> parse_semver b = Ok (Some pb) ->
  parse_semver c = Ok (Some pc) ->
  short_numbers pa -> short_numbers pb -> short_numbers pc ->
  (compare_semver a b = Ok (Some 1) \/ compare_semver a b = Ok (Some 0)
   \/ compare_semver a b = Ok (Some (-1)))
  /\ compare_semver a a = Ok (Some 0)
  /\ (compare_semver a b = Ok (Some 1) <->
      compare_semver b a = Ok (Some (-1)))
  /\ (compare_semver a b = Ok (Some (-1)) <->
      compare_semver b a = Ok (Some 1))
  /\ (compare_semver a b = Ok (Some 0) <-> compare_semver b a = Ok (Some 0))
  /\ (compare_semver a b = Ok (Some 1) -> compare_semver b c = Ok (Some 1) ->
      compare_semver a c = Ok (Some 1)).
Proof.
  intros Pa Pb Pc Sa Sb Sc.
  rewrite (compare_semver_parsed a b pa pb Pa Pb),
    (compare_semver_parsed a a pa pa Pa Pa),
    (compare_semver_parsed b a pb pa Pb Pa),
    (compare_semver_parsed b c pb pc Pb Pc),
    (compare_semver_parsed a c pa pc Pa Pc).
  rewrite (compare_parsed_structural pa pb Sa Sb),
    (compare_parsed_structural pa pa Sa Sa),
    (compare_parsed_structural pb pa Sb Sa),
    (compare_parsed_structural pb pc Sb Sc),
    (compare_parsed_structural pa pc Sa Sc).
  cbn [bind].
  pose proof cmp_key_laws as L.
  pose proof (cl_range _ L (key pa) (key pb)) as R.
  pose proof (cl_opp _ L (key pa) (key pb)) as O.
  split; [|split; [|split; [|split; [|split]]]].
  - destruct R as [R|[R|R]]; rewrite R; auto.
  - now rewrite (cl_refl _ L).
  - split; intros [= E]; do 2 f_equal; lia.
  - split; intros [= E]; do 2 f_equal; lia.
  - split; intros [= E]; do 2 f_equal; lia.
  - intros [= E1] [= E2]. do 2 f_equal.
    eapply (cl_trans _ L); eassumption.
Qed.

Lemma compare_semver_order_laws_witness :
  compare_semver "2.0.0" "1.0.0-rc.1" = Ok (Some 1)
  /\ compare_semver "1.0.0-rc.1" "1.0.0-alpha" = Ok (Some 1)
  /\ compare_semver "2.0.0" "1.0.0-alpha" = Ok (Some 1).
Proof.
  destruct (compare_semver_order_laws "2.0.0" "1.0.0-rc.1" "1.0.0-alpha"
              (mkVersion 2 0 0 None) (mkVersion 1 0 0 (Some ["rc"; "1"]))
              (mkVersion 1 0 0 (Some ["alpha"])) eq_refl eq_refl eq_refl
              (short_numbers_check (mkVersion 2 0 0 None) eq_refl)
              (short_numbers_check (mkVersion 1 0 0 (Some ["rc"; "1"]))
                 eq_refl)
              (short_numbers_check (mkVersion 1 0 0 (Some ["alpha"]))
                 eq_refl))
    as (_ & _ & _ & _ & _ & T).
  split; [reflexivity|]. split; [reflexivity|].
  exact (T eq_refl eq_refl).
Defined.

(** C2 (as stated, refuted). A major component of 2^64, which does not
    fit the unsigned 64-bit range, is accepted: the parse succeeds with
    the out-of-range value. *)
Lemma parse_semver_accepts_two_pow_64 :
  parse_semver "18446744073709551616.0.0"
  = Ok (Some (mkVersion 18446744073709551616 0 0 None))
  /\ ~ fits_u64 18446744073709551616.
Proof.
  split; [reflexivity|]. unfold fits_u64. lia.
Qed.

(** C2 (amended). There is no overflow failure at 64 bits: for all
    non-negative integers n, m and p written with at most 4300 digits
    (those below 10^4300), the string "n.m.p" written in decimal parses
    to exactly (n, m, p), also outside the unsigned 64-bit range; and the
    failure value [None] is never returned for a string of the pattern's
    shape, whatever the size of its components. *)
Theorem parse_semver_large_components (n m p : Z) :
  0 <= n < 10 ^ Z.of_nat Py.int_max_str_digits ->
  0 <= m < 10 ^ Z.of_nat Py.int_max_str_digits ->
  0 <= p < 10 ^ Z.of_nat Py.int_max_str_digits ->
  parse_semver (str n ++ "." ++ str m ++ "." ++ str p)
  = Ok (Some (mkVersion n m p None))
  /\ (forall s g, matches s g -> parse_semver s <> Ok None).
Proof.
  intros Hn Hm Hp. split.
  - assert (HL : (1 <= Py.int_max_str_digits)%nat)
      by (unfold Py.int_max_str_digits; lia).
    pose proof (parse_semver_canonical (str n) (str m) (str p) None
                  (str_isdigit n (proj1 Hn)) (str_isdigit m (proj1 Hm))
                  (str_isdigit p (proj1 Hp))
                  (str_length n _ Hn HL) (str_length m _ Hm HL)
                  (str_length p _ Hp HL))
      as H.
    cbn [segment option_map] in H. rewrite append_nil_r in H.
    rewrite H by discriminate.
    now rewrite !int_str by lia.
  - intros s g Hg Hs. apply parse_semver_none in Hs.
    apply re_match_complete in Hg. congruence.
Qed.

Lemma parse_semver_large_components_witness :
  parse_semver "18446744073709551616.0.340282366920938463463374607431768211456"
  = Ok (Some (mkVersion (2 ^ 64) 0 (2 ^ 128) None)).
Proof.
  assert (B : forall k, 0 <= k < 2 ^ 200 ->
                0 <= k < 10 ^ Z.of_nat Py.int_max_str_digits).
  { intros k [H0 H1]. split; [assumption|].
    eapply Z.lt_le_trans; [exact H1|].
    vm_compute. discriminate. }
  destruct (parse_semver_large_components (2 ^ 64) 0 (2 ^ 128))
    as [H _]; [apply B; split; vm_compute; congruence .. |].
  exact H.
Defined.

(** C3 (as stated, refuted). Prerelease segments with consecutive dots,
    or made of dots only, parse, and the list holds empty tokens. *)
Lemma parse_semver_accepts_empty_identifier :
  parse_semver "1.0.0-a..b"
  = Ok (Some (mkVersion 1 0 0 (Some ["a"; ""; "b"])))
  /\ parse_semver "1.0.0-..."
     = Ok (Some (mkVersion 1 0 0 (Some [""; ""; ""; ""])))
  /\ parse_semver "1.0.0-."
     = Ok (Some (mkVersion 1 0 0 (Some [""; ""]))).
Proof. repeat split; reflexivity. Qed.

(** C3 (amended). An empty identifier does not make the parse fail: after
    a release whose components have at most 4300 digits, any non-empty run
    of characters from [[0-9A-Za-z.-]] is accepted as the prerelease
    segment and the list is that segment split at its dots; so a segment
    that starts with a dot, ends with a dot or has two consecutive dots
    puts an empty token in the list, and a segment of k dots and nothing
    else gives k+1 empty tokens. *)
Theorem parse_semver_dotted_prerelease (d1 d2 d3 p : string) :
  Py.isdigit d1 = true -> Py.isdigit d2 = true -> Py.isdigit d3 = true ->
  short d1 -> short d2 -> short d3 ->
  p <> EmptyString -> Py.all Py.is_seg_char p = true ->
  parse_semver (d1 ++ "." ++ d2 ++ "." ++ d3 ++ "-" ++ p)
  = Ok (Some (mkVersion (Py.int_value d1) (Py.int_value d2)
                (Py.int_value d3) (Some (Py.split "." p))))
  /\ (forall v, p = "." ++ v -> In EmptyString (Py.split "." p))
  /\ (forall u, p = u ++ "." -> In EmptyString (Py.split "." p))
  /\ (forall u v, p = u ++ ".." ++ v -> In EmptyString (Py.split "." p))
  /\ (forall k, p = Py.replicate k "." ->
        Py.split "." p = repeat EmptyString (S k)).
Proof.
  intros D1 D2 D3 S1 S2 S3 Hne Hp. split; [|split; [|split; [|split]]].
  - apply (parse_semver_canonical d1 d2 d3 (Some p) D1 D2 D3 S1 S2 S3).
    intros q [= <-]. auto.
  - intros v ->. cbn [append]. rewrite split_leading_sep. now left.
  - intros u ->. rewrite split_trailing_sep.
    apply in_or_app; right. now left.
  - intros u v ->. cbn [append].
    rewrite split_app. apply in_or_app; right.
    rewrite split_leading_sep. now left.
  - intros k ->. apply split_only_seps.
Qed.

Lemma parse_semver_dotted_prerelease_witness :
  parse_semver "1.0.0-a..b"
  = Ok (Some (mkVersion 1 0 0 (Some ["a"; ""; "b"])))
  /\ In EmptyString (Py.split "." "a..b").
Proof.
  assert (S : short "1" /\ short "0")
    by (split; apply Nat.leb_le; reflexivity).
  destruct (parse_semver_dotted_prerelease "1" "0" "0" "a..b"
              eq_refl eq_refl eq_refl (proj1 S) (proj2 S) (proj2 S))
    as (H1 & _ & _ & H2 & _); [discriminate | reflexivity |].
  split; [exact H1 | exact (H2 "a" "b" eq_refl)].
Defined.

(** C4. For two strings that parse, the components are non-negative
    integers and the comparison goes major, then minor, then patch: the
    first component that differs gives 1 or -1, whatever the later
    components and the prerelease identifiers are. *)
Theorem compare_semver_release_first (a b : string) (pa pb : version) :
  parse_semver a = Ok (Some pa) -> parse_semver b = Ok (Some pb) ->
  (0 <= major pa /\ 0 <= minor pa /\ 0 <= patch pa)
  /\ (major pa > major pb -> compare_semver a b = Ok (Some 1))
  /\ (major pa < major pb -> compare_semver a b = Ok (Some (-1)))
  /\ (major pa = major pb -> minor pa > minor pb ->
      compare_semver a b = Ok (Some 1))
  /\ (major pa = major pb -> minor pa < minor pb ->
      compare_semver a b = Ok (Some (-1)))
  /\ (major pa = major pb -> minor pa = minor pb -> patch pa > patch pb ->
      compare_semver a b = Ok (Some 1))
  /\ (major pa = major pb -> minor pa = minor pb -> patch pa < patch pb ->
      compare_semver a b = Ok (Some (-1))).
Proof.
  intros Pa Pb.
  rewrite (compare_semver_parsed a b pa pb Pa Pb).
  split.
  - apply parse_semver_groups in Pa as (m & Hm & _ & ->).
    destruct Hm as (nl & _ & _ & D1 & D2 & D3 & _). simpl.
    repeat split; now apply int_nonneg.
  - unfold compare_parsed. cbn [seq release_loop component].
    repeat split; intros; cases_ltb; intros; try lia; reflexivity.
Qed.

Lemma compare_semver_release_first_witness :
  compare_semver "9.0.0" "10.0.0-rc.1" = Ok (Some (-1))
  /\ compare_semver "1.10.0" "1.9.7" = Ok (Some 1)
  /\ compare_semver "1.2.3-alpha" "1.2.4" = Ok (Some (-1)).
Proof.
  split; [|split].
  - destruct (compare_semver_release_first "9.0.0" "10.0.0-rc.1" _ _
                eq_refl eq_refl) as (_ & _ & H & _).
    apply H. vm_compute. reflexivity.
  - destruct (compare_semver_release_first "1.10.0" "1.9.7" _ _
                eq_refl eq_refl) as (_ & _ & _ & H & _).
    apply H; vm_compute; reflexivity.
  - destruct (compare_semver_release_first "1.2.3-alpha" "1.2.4" _ _
                eq_refl eq_refl) as (_ & _ & _ & _ & _ & _ & H).
    apply H; vm_compute; reflexivity.
Defined.

(** C5. For two strings that parse to the same (major, minor, patch):
    with no prerelease on either side the result is 0; when exactly one
    side has a prerelease, the side without it is the greater. *)
Theorem compare_semver_release_dominates (a b : string) (pa pb : version) :
  parse_semver a = Ok (Some pa) -> parse_semver b = Ok (Some pb) ->
  major pa = major pb -> minor pa = minor pb -> patch pa = patch pb ->
  (pre pa = None -> pre pb = None -> compare_semver a b = Ok (Some 0))
  /\ (pre pa = None -> pre pb <> None -> compare_semver a b = Ok (Some 1))
  /\ (pre pa <> None -> pre pb = None ->
      compare_semver a b = Ok (Some (-1))).
Proof.
  intros Pa Pb H1 H2 H3.
  rewrite (compare_semver_parsed a b pa pb Pa Pb),
    (compare_parsed_same_release pa pb H1 H2 H3).
  destruct (pre pa), (pre pb); simpl; repeat split; congruence.
Qed.

Lemma compare_semver_release_dominates_witness :
  compare_semver "1.0.0" "1.0.0-alpha" = Ok (Some 1)
  /\ compare_semver "1.0.0-alpha" "1.0.0" = Ok (Some (-1))
  /\ compare_semver "1.0.0" "1.0.0" = Ok (Some 0).
Proof.
  split; [|split].
  - destruct (compare_semver_release_dominates "1.0.0" "1.0.0-alpha" _ _
                eq_refl eq_refl eq_refl eq_refl eq_refl) as (_ & H & _).
    apply H; simpl; [reflexivity | discriminate].
  - destruct (compare_semver_release_dominates "1.0.0-alpha" "1.0.0" _ _
                eq_refl eq_refl eq_refl eq_refl eq_refl) as (_ & _ & H).
    apply H; simpl; [discriminate | reflexivity].
  - destruct (compare_semver_release_dominates "1.0.0" "1.0.0" _ _
                eq_refl eq_refl eq_refl eq_refl eq_refl) as (H & _).
    apply H; reflexivity.
Defined.

(** C6 (code defect). Two all-digit tokens are not always compared by
    value: when one of them has 4301 digits, both strings parse and the
    comparison raises [ValueError] at the conversion of line 72 instead
    of returning 1 for the larger number. *)
Theorem compare_semver_long_numeric_identifier :
  Py.isdigit (Py.replicate 4301 "1") = true /\ Py.isdigit "2" = true
  /\ parse_semver ("1.0.0-" ++ Py.replicate 4301 "1")
     = Ok (Some (mkVersion 1 0 0 (Some [Py.replicate 4301 "1"])))
  /\ parse_semver "1.0.0-2" = Ok (Some (mkVersion 1 0 0 (Some ["2"])))
  /\ compare_semver ("1.0.0-" ++ Py.replicate 4301 "1") "1.0.0-2"
     = ValueError.
Proof. repeat split; vm_compute; reflexivity. Qed.

(** X19. At an index that the comparison reaches (both lists have a
    token there and all earlier indices tie): two tokens made of digits,
    of at most 4300 digits each, are compared by their value as
    non-negative integers, the smaller value making its side less and
    equal values passing the decision on, while a token of more than 4300
    digits makes the comparison raise [ValueError]; when only one token
    is made of digits, its side is less. *)
Theorem prerelease_numeric_identifiers (a b : string) (pa pb : version)
  (ia ib : list string) (i : nat) (xa xb : string) :
  parse_semver a = Ok (Some pa) -> parse_semver b = Ok (Some pb) ->
  major pa = major pb -> minor pa = minor pb -> patch pa = patch pb ->
  pre pa = Some ia -> pre pb = Some ib ->
  nth_error ia i = Some xa -> nth_error ib i = Some xb ->
  (forall j, (j < i)%nat ->
     tie (nth j ia EmptyString) (nth j ib EmptyString)) ->
  (Py.isdigit xa = true -> Py.isdigit xb = true ->
     (short xa -> short xb ->
        0 <= Py.int_value xa /\ 0 <= Py.int_value xb
        /\ (Py.int_value xa < Py.int_value xb ->
            compare_semver a b = Ok (Some (-1)))
        /\ (Py.int_value xa > Py.int_value xb ->
            compare_semver a b = Ok (Some 1))
        /\ (Py.int_value xa = Py.int_value xb -> tie xa xb))
     /\ (~ (short xa /\ short xb) -> compare_semver a b = ValueError))
  /\ (Py.isdigit xa = true -> Py.isdigit xb = false ->
      compare_semver a b = Ok (Some (-1)))
  /\ (Py.isdigit xa = false -> Py.isdigit xb = true ->
      compare_semver a b = Ok (Some 1)).
Proof.
  intros Pa Pb H1 H2 H3 Ia Ib Xa Xb Ht.
  rewrite (compare_semver_prerelease a b pa pb ia ib Pa Pb H1 H2 H3 Ia Ib),
    (pre_loop_reach ia ib i xa xb Xa Xb Ht).
  split; [|split].
  - intros Da Db. split.
    + intros Sa Sb.
      split; [now apply int_nonneg|]. split; [now apply int_nonneg|].
      split; [|split]; intros Hv.
      * rewrite (ident_step_numeric xa xb Da Db Sa Sb).
        cases_ltb; intros; try lia; reflexivity.
      * rewrite (ident_step_numeric xa xb Da Db Sa Sb).
        cases_ltb; intros; try lia; reflexivity.
      * unfold tie. rewrite (ident_step_numeric xa xb Da Db Sa Sb).
        cases_ltb; intros; try lia; reflexivity.
    + intros Hn.
      assert (E : ident_step xa xb = ValueError)
        by (apply ident_step_raises; auto).
      now rewrite E.
  - intros Da Db. unfold ident_step. now rewrite Da, Db.
  - intros Da Db. unfold ident_step. now rewrite Da, Db.
Qed.

Lemma prerelease_numeric_identifiers_witness :
  compare_semver "1.0.0-9" "1.0.0-10" = Ok (Some (-1))
  /\ compare_semver "1.0.0-1" "1.0.0-alpha" = Ok (Some (-1))
  /\ compare_semver "1.0.0-rc.x7" "1.0.0-rc.10" = Ok (Some 1).
Proof.
  split; [|split].
  - destruct (prerelease_numeric_identifiers "1.0.0-9" "1.0.0-10" _ _
                ["9"] ["10"] 0 "9" "10"
                eq_refl eq_refl eq_refl eq_refl eq_refl eq_refl eq_refl
                eq_refl eq_refl) as (H & _ & _).
    + intros j Hj. inversion Hj.
    + destruct (H eq_refl eq_refl) as (V & _).
      assert (S9 : short "9") by (apply Nat.leb_le; reflexivity).
      assert (S10 : short "10") by (apply Nat.leb_le; reflexivity).
      destruct (V S9 S10) as (_ & _ & L & _).
      apply L. reflexivity.
  - destruct (prerelease_numeric_identifiers "1.0.0-1" "1.0.0-alpha" _ _
                ["1"] ["alpha"] 0 "1" "alpha"
                eq_refl eq_refl eq_refl eq_refl eq_refl eq_refl eq_refl
                eq_refl eq_refl) as (_ & H & _).
    + intros j Hj. inversion Hj.
    + apply H; reflexivity.
  - destruct (prerelease_numeric_identifiers "1.0.0-rc.x7" "1.0.0-rc.10" _ _
                ["rc"; "x7"] ["rc"; "10"] 1 "x7" "10"
                eq_refl eq_refl eq_refl eq_refl eq_refl eq_refl eq_refl
                eq_refl eq_refl) as (_ & _ & H).
    + intros [|j] Hj; [reflexivity|].
      apply PeanoNat.lt_S_n in Hj. inversion Hj.
    + apply H; reflexivity.
Defined.

(** C7. With equal release triples and a prerelease on both sides: a
    list that runs out first, all its indices tying, makes its side
    less; at an index the comparison reaches where neither token is made
    of digits, the tokens are compared character by character by code
    point, a proper prefix being less and only identical tokens tying;
    and the result is 0 exactly when the lists are equally long and
    every index ties. *)
Theorem prerelease_list_rules (a b : string) (pa pb : version)
  (ia ib : list string) :
  parse_semver a = Ok (Some pa) -> parse_semver b = Ok (Some pb) ->
  major pa = major pb -> minor pa = minor pb -> patch pa = patch pb ->
  pre pa = Some ia -> pre pb = Some ib ->
  ((List.length ia < List.length ib)%nat ->
   (forall j, (j < List.length ia)%nat ->
      tie (nth j ia EmptyString) (nth j ib EmptyString)) ->
   compare_semver a b = Ok (Some (-1)))
  /\ ((List.length ib < List.length ia)%nat ->
      (forall j, (j < List.length ib)%nat ->
         tie (nth j ia EmptyString) (nth j ib EmptyString)) ->
      compare_semver a b = Ok (Some 1))
  /\ (forall i xa xb,
        nth_error ia i = Some xa -> nth_error ib i = Some xb ->
        (forall j, (j < i)%nat ->
           tie (nth j ia EmptyString) (nth j ib EmptyString)) ->
        Py.isdigit xa = false -> Py.isdigit xb = false ->
        (forall p c1 c2 r1 r2,
           xa = p ++ String c1 r1 -> xb = p ++ String c2 r2 ->
           (Py.ord c1 < Py.ord c2 -> compare_semver a b = Ok (Some (-1)))
           /\ (Py.ord c1 > Py.ord c2 -> compare_semver a b = Ok (Some 1)))
        /\ (forall c r, xb = xa ++ String c r ->
              compare_semver a b = Ok (Some (-1)))
        /\ (forall c r, xa = xb ++ String c r ->
              compare_semver a b = Ok (Some 1))
        /\ (tie xa xb <-> xa = xb))
  /\ (compare_semver a b = Ok (Some 0) <->
      List.length ia = List.length ib
      /\ forall j, (j < List.length ia)%nat ->
           tie (nth j ia EmptyString) (nth j ib EmptyString)).
Proof.
  intros Pa Pb H1 H2 H3 Ia Ib.
  rewrite (compare_semver_prerelease a b pa pb ia ib Pa Pb H1 H2 H3 Ia Ib).
  split; [|split; [|split]].
  - intros Hl Ht. now rewrite (pre_loop_shorter ia ib Hl Ht).
  - intros Hl Ht. now rewrite (pre_loop_longer ia ib Hl Ht).
  - intros i xa xb Xa Xb Ht Da Db.
    rewrite (pre_loop_reach ia ib i xa xb Xa Xb Ht).
    pose proof (ident_step_alpha xa xb Da Db) as E.
    split; [|split; [|split]].
    + intros p c1 c2 r1 r2 -> ->; split; intros Hc.
      * rewrite (string_compare_first_diff p r1 r2 c1 c2 Hc) in E.
        now rewrite E.
      * rewrite (string_compare_first_diff_gt p r1 r2 c1 c2 Hc) in E.
        now rewrite E.
    + intros c r ->. rewrite string_compare_proper_prefix in E.
      now rewrite E.
    + intros c r ->. rewrite string_compare_longer in E.
      now rewrite E.
    + unfold tie. rewrite E. split.
      * destruct (String.compare xa xb) eqn:Hc; try discriminate.
        intros _. now apply String.compare_eq_iff.
      * intros ->. now rewrite string_compare_refl.
  - rewrite <- (pre_loop_falls_through ia ib).
    pose proof (pre_loop_never_zero ia ib) as Z0.
    destruct (pre_loop ia ib 0
                (Nat.max (List.length ia) (List.length ib)))
      as [[r|]|]; cbn [bind].
    + split; [intros [= ->]; congruence | discriminate].
    + split; reflexivity.
    + split; discriminate.
Qed.

Lemma prerelease_list_rules_witness :
  compare_semver "1.0.0-alpha" "1.0.0-alpha.1" = Ok (Some (-1))
  /\ compare_semver "1.0.0-rc.beta" "1.0.0-rc.bet" = Ok (Some 1)
  /\ compare_semver "1.0.0-x.Zeta" "1.0.0-x.alpha" = Ok (Some (-1)).
Proof.
  split; [|split].
  - destruct (prerelease_list_rules "1.0.0-alpha" "1.0.0-alpha.1" _ _
                ["alpha"] ["alpha"; "1"]
                eq_refl eq_refl eq_refl eq_refl eq_refl eq_refl eq_refl)
      as (H & _).
    apply H; [apply le_n|].
    intros [|j] Hj; [reflexivity|].
    apply PeanoNat.lt_S_n in Hj. inversion Hj.
  - destruct (prerelease_list_rules "1.0.0-rc.beta" "1.0.0-rc.bet" _ _
                ["rc"; "beta"] ["rc"; "bet"]
                eq_refl eq_refl eq_refl eq_refl eq_refl eq_refl eq_refl)
      as (_ & _ & H & _).
    assert (T : forall j, (j < 1)%nat ->
                tie (nth j ["rc"; "beta"] "") (nth j ["rc"; "bet"] "")).
    { intros [|j] Hj; [reflexivity|].
      apply PeanoNat.lt_S_n in Hj. inversion Hj. }
    destruct (H 1%nat "beta" "bet" eq_refl eq_refl T eq_refl eq_refl)
      as (_ & _ & G & _).
    exact (G "a"%char "" eq_refl).
  - destruct (prerelease_list_rules "1.0.0-x.Zeta" "1.0.0-x.alpha" _ _
                ["x"; "Zeta"] ["x"; "alpha"]
                eq_refl eq_refl eq_refl eq_refl eq_refl eq_refl eq_refl)
      as (_ & _ & H & _).
    assert (T : forall j, (j < 1)%nat ->
                tie (nth j ["x"; "Zeta"] "") (nth j ["x"; "alpha"] "")).
    { intros [|j] Hj; [reflexivity|].
      apply PeanoNat.lt_S_n in Hj. inversion Hj. }
    destruct (H 1%nat "Zeta" "alpha" eq_refl eq_refl T eq_refl eq_refl)
      as (G & _).
    destruct (G "" "Z"%char "a"%char "eta" "lpha" eq_refl eq_refl)
      as [L _].
    apply L. reflexivity.
Defined.

(** C8. Round trip: when a string parses, writing the version in
    canonical form and parsing that again gives the same version. *)
Theorem parse_semver_roundtrip (s : string) (v : version) :
  parse_semver s = Ok (Some v) -> parse_semver (serialize v) = Ok (Some v).
Proof.
  intros Hs. apply parse_semver_groups in Hs as (m & Hm & (S1 & S2 & S3) & ->).
  destruct Hm as (nl & _ & _ & D1 & D2 & D3 & P4 & _).
  rewrite serialize_groups.
  rewrite parse_semver_canonical;
    try (apply str_isdigit, int_nonneg; assumption);
    try (apply str_int_value_short; assumption); [|assumption].
  unfold version_of_groups.
  now rewrite !int_str by (apply int_nonneg; assumption).
Qed.

Lemma parse_semver_roundtrip_witness :
  parse_semver "01.20.3-rc..01+build.7"
  = Ok (Some (mkVersion 1 20 3 (Some ["rc"; ""; "01"])))
  /\ serialize (mkVersion 1 20 3 (Some ["rc"; ""; "01"])) = "1.20.3-rc..01"
  /\ parse_semver "1.20.3-rc..01"
     = Ok (Some (mkVersion 1 20 3 (Some ["rc"; ""; "01"]))).
Proof.
  split; [reflexivity|]. split; [reflexivity|].
  exact (parse_semver_roundtrip "01.20.3-rc..01+build.7" _ eq_refl).
Defined.




(** C10. Comparing equal does not mean being equal: "1.0.0-01" and
    "1.0.0-1" parse to versions whose prerelease lists are ["01"] and
    ["1"], yet they compare as 0, the identifiers being numeric and so
    compared by value. *)
Theorem equal_is_not_structural :
  parse_semver "1.0.0-01" = Ok (Some (mkVersion 1 0 0 (Some ["01"])))
  /\ parse_semver "1.0.0-1" = Ok (Some (mkVersion 1 0 0 (Some ["1"])))
  /\ mkVersion 1 0 0 (Some ["01"]) <> mkVersion 1 0 0 (Some ["1"])
  /\ compare_semver "1.0.0-01" "1.0.0-1" = Ok (Some 0).
Proof.
  repeat split; try reflexivity. discriminate.
Qed.

(** * Further properties of the code *)

(** ** Parsing: the final newline, identifiers, leading zeros *)

Lemma seg_char_version_char (c : ascii) :
  Py.is_seg_char c = true -> is_version_char c = true.
Proof. unfold is_version_char. now intros ->. Qed.

Lemma digit_seg_char (c : ascii) :
  Py.is_digit c = true -> Py.is_seg_char c = true.
Proof. unfold Py.is_seg_char. now intros ->. Qed.

Lemma digit_version_char (c : ascii) :
  Py.is_digit c = true -> is_version_char c = true.
Proof. intros H. now apply seg_char_version_char, digit_seg_char. Qed.

Lemma seg_char_not_newline (c : ascii) :
  Py.is_seg_char c = true -> not_newline c = true.
Proof.
  unfold not_newline.
  destruct (Ascii.eqb_spec c "010") as [->|]; [|reflexivity].
  vm_compute. discriminate.
Qed.

Lemma digit_not_newline (c : ascii) :
  Py.is_digit c = true -> not_newline c = true.
Proof. intros H. now apply seg_char_not_newline, digit_seg_char. Qed.

Lemma segment_not_newline (lead : ascii) (g : option string) :
  not_newline lead = true ->
  (forall p, g = Some p ->
     p <> EmptyString /\ Py.all Py.is_seg_char p = true) ->
  Py.all not_newline (segment lead g) = true.
Proof.
  intros Hl Hg. destruct g as [p|]; [|reflexivity].
  destruct (Hg p eq_refl) as [_ Hp]. cbn [segment Py.all].
  now rewrite Hl, (all_impl _ _ _ seg_char_not_newline Hp).
Qed.

Lemma matches_core (s : string) (m : groups) :
  matches s m ->
  (s = matched_core m \/ s = matched_core m ++ newline)
  /\ Py.all not_newline (matched_core m) = true
  /\ matches (matched_core m) m
  /\ matches (matched_core m ++ newline) m.
Proof.
  intros (nl & E & Hnl & D1 & D2 & D3 & P4 & P5).
  assert (Es : s = matched_core m ++ nl).
  { rewrite E. unfold matched_core. now rewrite !append_assoc. }
  split; [|split; [|split]].
  - destruct Hnl as [->| ->]; [left | right]; auto.
    now rewrite append_nil_r in Es.
  - unfold matched_core. rewrite !all_app.
    apply isdigit_spec in D1 as [_ D1].
    apply isdigit_spec in D2 as [_ D2].
    apply isdigit_spec in D3 as [_ D3].
    rewrite (all_impl _ _ _ digit_not_newline D1),
      (all_impl _ _ _ digit_not_newline D2),
      (all_impl _ _ _ digit_not_newline D3).
    rewrite (segment_not_newline "-" (g_pre m) eq_refl P4),
      (segment_not_newline "+" (g_build m) eq_refl P5).
    reflexivity.
  - exists EmptyString. unfold matched_core.
    rewrite append_nil_r.
    split; [reflexivity|]. split; [now left|].
    do 3 (split; [assumption|]). split; assumption.
  - exists newline. unfold matched_core.
    rewrite !append_assoc.
    split; [reflexivity|]. split; [now right|].
    do 3 (split; [assumption|]). split; assumption.
Qed.

(** X1. A string that parses is a text without newline, optionally
    followed by one final newline; with or without that newline the text
    parses to the same version. *)
Theorem parse_semver_final_newline (s : string) (v : version) :
  parse_semver s = Ok (Some v) ->
  exists core,
    (s = core \/ s = core ++ newline)
    /\ Py.all not_newline core = true
    /\ parse_semver core = Ok (Some v)
    /\ parse_semver (core ++ newline) = Ok (Some v).
Proof.
  intros Hs. apply parse_semver_groups in Hs as (m & Hm & Hshort & ->).
  destruct (matches_core s m Hm) as (Hc & Ha & M1 & M2).
  exists (matched_core m). repeat split; auto.
  - apply parse_semver_groups; eauto.
  - apply parse_semver_groups; eauto.
Qed.

Lemma parse_semver_final_newline_witness :
  exists core,
    (String.append "1.2.3-rc.1+b7" newline = core
     \/ String.append "1.2.3-rc.1+b7" newline = core ++ newline)
    /\ Py.all not_newline core = true
    /\ parse_semver core = Ok (Some (mkVersion 1 2 3 (Some ["rc"; "1"])))
    /\ parse_semver (core ++ newline)
       = Ok (Some (mkVersion 1 2 3 (Some ["rc"; "1"]))).
Proof.
  exact (parse_semver_final_newline
           (String.append "1.2.3-rc.1+b7" newline) _ eq_refl).
Defined.

Lemma seg_char_ident_char (c : ascii) :
  Py.is_seg_char c = true -> Ascii.eqb c "." = false ->
  is_ident_char c = true.
Proof.
  unfold Py.is_seg_char, is_ident_char. intros H E.
  rewrite E, orb_false_r in H. exact H.
Qed.

Lemma split_ident_chars (p : string) :
  Py.all Py.is_seg_char p = true ->
  Forall (fun t => Py.all is_ident_char t = true) (Py.split "." p).
Proof.
  induction p as [|c p IH]; intros H.
  - repeat constructor.
  - cbn [Py.all] in H. apply andb_true_iff in H as [Hc Hp].
    specialize (IH Hp). cbn [Py.split].
    destruct (Ascii.eqb c ".") eqn:Ec.
    + constructor; [reflexivity | exact IH].
    + pose proof (split_nonempty "." p) as Hne.
      destruct (Py.split "." p) as [|h t]; [congruence|].
      inversion IH as [|? ? Hh Ht]; subst.
      constructor; [|exact Ht].
      cbn [Py.all]. now rewrite (seg_char_ident_char c Hc Ec), Hh.
Qed.

(** X2. The prerelease list of a parsed version is never empty, its
    identifiers contain only characters from [[0-9A-Za-z-]] (no dot),
    and joined with dots they give back a non-empty segment. *)
Theorem parse_semver_identifiers (s : string) (v : version)
  (ids : list string) :
  parse_semver s = Ok (Some v) -> pre v = Some ids ->
  ids <> []
  /\ Forall (fun t => Py.all is_ident_char t = true) ids
  /\ Py.join "." ids <> EmptyString
  /\ Py.split "." (Py.join "." ids) = ids.
Proof.
  intros Hs Hp. apply parse_semver_groups in Hs as (m & Hm & _ & ->).
  destruct Hm as (nl & _ & _ & _ & _ & _ & P4 & _).
  cbn [pre version_of_groups] in Hp. destruct (g_pre m) as [p|]; [|discriminate].
  cbn [option_map] in Hp. injection Hp as <-.
  destruct (P4 p eq_refl) as [Hne Hall].
  rewrite join_split.
  repeat split; auto.
  - apply split_nonempty.
  - now apply split_ident_chars.
Qed.

Lemma parse_semver_identifiers_witness :
  ["rc"; ""; "x-1"] <> []
  /\ Forall (fun t => Py.all is_ident_char t = true) ["rc"; ""; "x-1"]
  /\ Py.join "." ["rc"; ""; "x-1"] <> EmptyString
  /\ Py.split "." (Py.join "." ["rc"; ""; "x-1"]) = ["rc"; ""; "x-1"].
Proof.
  exact (parse_semver_identifiers "1.0.0-rc..x-1+b" _ _ eq_refl eq_refl).
Defined.

Lemma int_acc_zeros (z g : string) (acc : Z) :
  Py.all is_zero z = true -> acc = 0 ->
  Py.int_acc acc (z ++ g) = Py.int_acc 0 g.
Proof.
  revert acc; induction z as [|c z IH]; intros acc Hz ->; [reflexivity|].
  cbn [Py.all] in Hz. apply andb_true_iff in Hz as [Hc Hz].
  unfold is_zero in Hc. apply Ascii.eqb_eq in Hc as ->.
  cbn [append Py.int_acc]. apply IH; [assumption | reflexivity].
Qed.

Lemma int_value_zeros (z g : string) :
  Py.all is_zero z = true -> Py.int_value (z ++ g) = Py.int_value g.
Proof. intros Hz. now apply int_acc_zeros. Qed.

Lemma zero_is_digit (c : ascii) : is_zero c = true -> Py.is_digit c = true.
Proof. unfold is_zero. intros H; apply Ascii.eqb_eq in H as ->. reflexivity. Qed.

Lemma isdigit_zeros_app (z g : string) :
  Py.all is_zero z = true -> Py.isdigit g = true ->
  Py.isdigit (z ++ g) = true.
Proof.
  intros Hz Hg. apply isdigit_spec in Hg as [Hne Hg].
  apply isdigit_spec. split.
  - destruct z; [assumption | discriminate].
  - now rewrite all_app, (all_impl _ _ _ zero_is_digit Hz), Hg.
Qed.

Lemma digits_then_zeros (z s g r : string) :
  Py.all is_zero z = true -> digits_then s = Some (g, r) ->
  digits_then (z ++ s) = Some (z ++ g, r).
Proof.
  intros Hz Hs. apply digits_then_spec in Hs as (-> & Hg & Hr).
  rewrite <- append_assoc. apply digits_then_app; [|assumption].
  now apply isdigit_zeros_app.
Qed.

(** X3. Leading zeros do not change the value: when the major, minor
    and patch components of a string that parses are padded with zeros,
    the padded string parses to the same version, unless a padded
    component has more than 4300 digits and the call raises
    [ValueError]. *)
Theorem parse_semver_leading_zeros (z1 z2 z3 d1 d2 rest : string)
  (v : version) :
  Py.all is_zero z1 = true -> Py.all is_zero z2 = true ->
  Py.all is_zero z3 = true ->
  Py.isdigit d1 = true -> Py.isdigit d2 = true ->
  parse_semver (d1 ++ "." ++ d2 ++ "." ++ rest) = Ok (Some v) ->
  parse_semver ((z1 ++ d1) ++ "." ++ (z2 ++ d2) ++ "." ++ (z3 ++ rest))
  <> ValueError ->
  parse_semver ((z1 ++ d1) ++ "." ++ (z2 ++ d2) ++ "." ++ (z3 ++ rest))
  = Ok (Some v).
Proof.
  intros Z1 Z2 Z3 D1 D2. unfold parse_semver, re_match.
  rewrite (digits_then_app d1) by (auto; reflexivity).
  rewrite (digits_then_app (z1 ++ d1))
    by (try apply isdigit_zeros_app; auto; reflexivity).
  cbn [expect append Ascii.eqb Bool.eqb].
  rewrite (digits_then_app d2) by (auto; reflexivity).
  rewrite (digits_then_app (z2 ++ d2))
    by (try apply isdigit_zeros_app; auto; reflexivity).
  cbn [expect append Ascii.eqb Bool.eqb].
  destruct (digits_then rest) as [[g3 r3]|] eqn:H3; [|discriminate].
  rewrite (digits_then_zeros z3 rest g3 r3 Z3 H3).
  destruct (opt_segment "-" r3) as [g4 r4].
  destruct (opt_segment "+" r4) as [g5 r5].
  destruct (Py.at_end r5); [|discriminate].
  cbn [g_major g_minor g_patch g_pre].
  destruct (Py.int d1) as [n1|] eqn:E1; [|discriminate].
  destruct (Py.int d2) as [n2|] eqn:E2; [|discriminate].
  destruct (Py.int g3) as [n3|] eqn:E3; [|discriminate].
  apply int_ok in E1 as [_ ->], E2 as [_ ->], E3 as [_ ->].
  cbn [bind]. intros [= <-].
  destruct (Py.int (z1 ++ d1)) as [m1|] eqn:F1;
    [|cbn [bind]; intros H; now elim H].
  destruct (Py.int (z2 ++ d2)) as [m2|] eqn:F2;
    [|cbn [bind]; intros H; now elim H].
  destruct (Py.int (z3 ++ g3)) as [m3|] eqn:F3;
    [|cbn [bind]; intros H; now elim H].
  apply int_ok in F1 as [_ ->], F2 as [_ ->], F3 as [_ ->].
  cbn [bind]. intros _.
  now rewrite !int_value_zeros by assumption.
Qed.

Lemma parse_semver_leading_zeros_witness :
  parse_semver "001.02.0003-rc.1"
  = Ok (Some (mkVersion 1 2 3 (Some ["rc"; "1"]))).
Proof.
  apply (parse_semver_leading_zeros "00" "0" "000" "1" "2" "3-rc.1" _
           eq_refl eq_refl eq_refl eq_refl eq_refl eq_refl).
  vm_compute. discriminate.
Defined.

(** ** Comparison: when two versions are equal, and the preorder *)

Lemma ident_cmp_zero_iff (xa xb : string) :
  ident_cmp xa xb = 0 <-> same_ident xa xb.
Proof.
  unfold same_ident. split.
  - intros H.
    destruct (Py.isdigit xa) eqn:Da, (Py.isdigit xb) eqn:Db.
    + right. rewrite (ident_cmp_numeric xa xb Da Db) in H.
      unfold cmp_int in H. repeat split; auto.
      cases_ltb; intros; lia.
    + unfold ident_cmp, ident_step_value in H. rewrite Da, Db in H.
      discriminate.
    + unfold ident_cmp, ident_step_value in H. rewrite Da, Db in H.
      discriminate.
    + left. rewrite (ident_cmp_alpha xa xb Da Db) in H.
      destruct (String.compare xa xb) eqn:Hc; try discriminate.
      now apply String.compare_eq_iff.
  - intros [->|(Da & Db & E)].
    + apply (cl_refl _ ident_cmp_laws).
    + rewrite (ident_cmp_numeric xa xb Da Db). unfold cmp_int.
      rewrite E. cases_ltb; intros; lia.
Qed.

Lemma cmp_list_zero_Forall2 {A : Type} (c : A -> A -> Z) (a b : list A) :
  cmp_list c a b = 0 <-> Forall2 (fun x y => c x y = 0) a b.
Proof.
  revert b; induction a as [|x a IH]; intros [|y b]; cbn [cmp_list].
  - split; [constructor | reflexivity].
  - split; [discriminate | intros H; inversion H].
  - split; [discriminate | intros H; inversion H].
  - destruct (Z.eqb_spec (c x y) 0) as [E|N].
    + rewrite IH. split.
      * intros H; constructor; assumption.
      * intros H; inversion H; assumption.
    + split; [contradiction | intros H; inversion H; contradiction].
Qed.

Lemma Forall2_impl {A : Type} (P Q : A -> A -> Prop) (a b : list A) :
  (forall x y, P x y -> Q x y) -> Forall2 P a b -> Forall2 Q a b.
Proof. intros H F; induction F; constructor; auto. Qed.

Lemma cmp_int_zero_iff (x y : Z) : cmp_int x y = 0 <-> x = y.
Proof. unfold cmp_int. cases_ltb; intros; lia. Qed.

Lemma cmp_pair_zero_iff {A B : Type} (c1 : A -> A -> Z) (c2 : B -> B -> Z)
  (x y : A * B) :
  cmp_pair c1 c2 x y = 0 <-> c1 (fst x) (fst y) = 0 /\ c2 (snd x) (snd y) = 0.
Proof.
  unfold cmp_pair. destruct (Z.eqb_spec (c1 (fst x) (fst y)) 0); lia.
Qed.

Lemma cmp_key_zero_iff (pa pb : version) :
  cmp_key (key pa) (key pb) = 0 <->
  major pa = major pb /\ minor pa = minor pb /\ patch pa = patch pb
  /\ same_pre (pre pa) (pre pb).
Proof.
  unfold cmp_key, key.
  rewrite !cmp_pair_zero_iff; cbn [fst snd]. rewrite !cmp_int_zero_iff.
  assert (H : cmp_absent_top (cmp_list ident_cmp) (pre pa) (pre pb) = 0
              <-> same_pre (pre pa) (pre pb)).
  { destruct (pre pa) as [ia|], (pre pb) as [ib|]; cbn;
      try (split; [discriminate | contradiction]); [|tauto].
    rewrite cmp_list_zero_Forall2. split; apply Forall2_impl;
      intros x y; apply ident_cmp_zero_iff. }
  rewrite H. tauto.
Qed.

(** X4. Two parsed strings compare as 0 only when their release triples
    are equal and their prerelease fields are both absent, or both
    present with the same number of identifiers, each pair being the
    same text or two numbers of the same value.  Conversely, on two such
    strings the comparison returns 0 or raises [ValueError], and it
    returns 0 when the all-digit identifiers have at most 4300 digits. *)
Theorem compare_semver_equal_iff (a b : string) (pa pb : version) :
  parse_semver a = Ok (Some pa) -> parse_semver b = Ok (Some pb) ->
  (compare_semver a b = Ok (Some 0) ->
   major pa = major pb /\ minor pa = minor pb /\ patch pa = patch pb
   /\ same_pre (pre pa) (pre pb))
  /\ (major pa = major pb /\ minor pa = minor pb /\ patch pa = patch pb
      /\ same_pre (pre pa) (pre pb) ->
      (compare_semver a b = Ok (Some 0) \/ compare_semver a b = ValueError)
      /\ (short_numbers pa -> short_numbers pb ->
          compare_semver a b = Ok (Some 0))).
Proof.
  intros Pa Pb. rewrite (compare_semver_parsed a b pa pb Pa Pb).
  rewrite <- cmp_key_zero_iff. split; [|intros Hz; split].
  - destruct (compare_parsed pa pb) as [r|] eqn:E; [|discriminate].
    apply compare_parsed_sound in E. cbn [bind]. congruence.
  - destruct (compare_parsed pa pb) as [r|] eqn:E; [|now right].
    apply compare_parsed_sound in E. left. cbn [bind]. congruence.
  - intros Sa Sb. rewrite (compare_parsed_structural pa pb Sa Sb).
    cbn [bind]. now rewrite Hz.
Qed.

Lemma compare_semver_equal_iff_witness :
  compare_semver "1.02.3-rc.007.x" "01.2.3-rc.7.x+build" = Ok (Some 0).
Proof.
  apply (compare_semver_equal_iff "1.02.3-rc.007.x" "01.2.3-rc.7.x+build"
           (mkVersion 1 2 3 (Some ["rc"; "007"; "x"]))
           (mkVersion 1 2 3 (Some ["rc"; "7"; "x"])) eq_refl eq_refl).
  - cbn [major minor patch pre same_pre].
    repeat split.
    constructor; [now left|].
    constructor; [right; repeat split; reflexivity|].
    constructor; [now left|]. constructor.
  - exact (short_numbers_check
             (mkVersion 1 2 3 (Some ["rc"; "007"; "x"])) eq_refl).
  - exact (short_numbers_check
             (mkVersion 1 2 3 (Some ["rc"; "7"; "x"])) eq_refl).
Defined.

Section Preorder.
Context {A : Type}.
Variable c : A -> A -> Z.
Hypothesis L : cmp_laws c.

Lemma cl_lt_trans (x y z : A) : c x y = -1 -> c y z = -1 -> c x z = -1.
Proof.
  intros Hxy Hyz.
  assert (Hzy : c z y = 1) by (rewrite (cl_opp c L y z); lia).
  assert (Hyx : c y x = 1) by (rewrite (cl_opp c L x y); lia).
  pose proof (cl_trans c L z y x Hzy Hyx) as H.
  rewrite (cl_opp c L z x). lia.
Qed.

Lemma cl_ge_trans (x y z : A) : c x y <> -1 -> c y z <> -1 -> c x z <> -1.
Proof.
  intros Hxy Hyz.
  destruct (cl_range c L x y) as [E|[E|E]]; [contradiction| |].
  - now rewrite (cl_cong c L x y z E).
  - destruct (cl_range c L y z) as [F|[F|F]]; [contradiction| |].
    + rewrite <- (cl_cong_r c L x y z F). lia.
    + rewrite (cl_trans c L x y z E F). lia.
Qed.
End Preorder.

(** X5. On strings that parse and whose all-digit prerelease
    identifiers have at most 4300 digits, the comparison is a total
    preorder: two strings that compare as 0 compare alike against any
    third one, on either side; Less is transitive; and so is
    "not Less". *)
Theorem compare_semver_preorder (a b c : string) (pa pb pc : version) :
  parse_semver a = Ok (Some pa) -> parse_semver b = Ok (Some pb) ->
  parse_semver c = Ok (Some pc) ->
  short_numbers pa -> short_numbers pb -> short_numbers pc ->
  (compare_semver a b = Ok (Some 0) ->
   compare_semver a c = compare_semver b c
   /\ compare_semver c a = compare_semver c b)
  /\ (compare_semver a b = Ok (Some (-1)) ->
      compare_semver b c = Ok (Some (-1)) ->
      compare_semver a c = Ok (Some (-1)))
  /\ (compare_semver a b <> Ok (Some (-1)) ->
      compare_semver b c <> Ok (Some (-1)) ->
      compare_semver a c <> Ok (Some (-1))).
Proof.
  intros Pa Pb Pc Sa Sb Sc.
  rewrite (compare_semver_parsed a b pa pb Pa Pb),
    (compare_semver_parsed a c pa pc Pa Pc),
    (compare_semver_parsed b c pb pc Pb Pc),
    (compare_semver_parsed c a pc pa Pc Pa),
    (compare_semver_parsed c b pc pb Pc Pb).
  rewrite (compare_parsed_structural pa pb Sa Sb),
    (compare_parsed_structural pa pc Sa Sc),
    (compare_parsed_structural pb pc Sb Sc),
    (compare_parsed_structural pc pa Sc Sa),
    (compare_parsed_structural pc pb Sc Sb).
  cbn [bind].
  pose proof cmp_key_laws as L.
  split; [|split].
  - intros [= E]. split; do 2 f_equal.
    + now apply (cl_cong _ L).
    + now apply (cl_cong_r _ L).
  - intros [= E] [= F]. do 2 f_equal.
    now apply (cl_lt_trans _ L (key pa) (key pb) (key pc)).
  - intros E F G. injection G as G.
    apply (cl_ge_trans _ L (key pa) (key pb) (key pc)); congruence.
Qed.

Lemma compare_semver_preorder_witness :
  compare_semver "1.0.0-01" "0.9.0" = compare_semver "1.0.0-1" "0.9.0"
  /\ compare_semver "1.0.0-alpha" "2.0.0" = Ok (Some (-1)).
Proof.
  destruct (compare_semver_preorder "1.0.0-01" "1.0.0-1" "0.9.0"
              (mkVersion 1 0 0 (Some ["01"])) (mkVersion 1 0 0 (Some ["1"]))
              (mkVersion 0 9 0 None) eq_refl eq_refl eq_refl
              (short_numbers_check (mkVersion 1 0 0 (Some ["01"])) eq_refl)
              (short_numbers_check (mkVersion 1 0 0 (Some ["1"])) eq_refl)
              (short_numbers_check (mkVersion 0 9 0 None) eq_refl))
    as (H & _ & _).
  destruct (compare_semver_preorder "1.0.0-alpha" "1.0.0" "2.0.0"
              (mkVersion 1 0 0 (Some ["alpha"])) (mkVersion 1 0 0 None)
              (mkVersion 2 0 0 None) eq_refl eq_refl eq_refl
              (short_numbers_check (mkVersion 1 0 0 (Some ["alpha"]))
                 eq_refl)
              (short_numbers_check (mkVersion 1 0 0 None) eq_refl)
              (short_numbers_check (mkVersion 2 0 0 None) eq_refl))
    as (_ & T & _).
  split.
  - exact (proj1 (H eq_refl)).
  - exact (T eq_refl eq_refl).
Defined.

(** ** [VERSION_RE] and the extraction of the dependency's version *)

Lemma at_end_spec (r : string) :
  Py.at_end r = true <-> r = EmptyString \/ r = newline.
Proof.
  unfold newline. destruct r as [|c [|c' r]]; simpl; split; auto.
  - intros H; apply Ascii.eqb_eq in H as ->; auto.
  - intros [H|H]; [discriminate|]. injection H as ->. reflexivity.
  - discriminate.
  - intros [H|H]; discriminate.
Qed.

Lemma release_prefix_spec (s rel r3 : string) :
  release_prefix s = Some (rel, r3) ->
  exists g1 g2 g3,
    rel = g1 ++ "." ++ g2 ++ "." ++ g3 /\ s = rel ++ r3
    /\ Py.isdigit g1 = true /\ Py.isdigit g2 = true
    /\ Py.isdigit g3 = true /\ stops Py.is_digit r3.
Proof.
  unfold release_prefix.
  destruct (digits_then s) as [[g1 r1]|] eqn:H1; [|discriminate].
  destruct (expect "." r1) as [r1'|] eqn:E1; [|discriminate].
  destruct (digits_then r1') as [[g2 r2]|] eqn:H2; [|discriminate].
  destruct (expect "." r2) as [r2'|] eqn:E2; [|discriminate].
  destruct (digits_then r2') as [[g3 r3']|] eqn:H3; [|discriminate].
  intros [= <- <-].
  apply digits_then_spec in H1 as (-> & D1 & _).
  apply expect_spec in E1 as ->.
  apply digits_then_spec in H2 as (-> & D2 & _).
  apply expect_spec in E2 as ->.
  apply digits_then_spec in H3 as (-> & D3 & S3).
  exists g1, g2, g3. repeat split; auto.
  repeat (progress (rewrite ?append_assoc; cbn [append])). reflexivity.
Qed.

Lemma release_prefix_app (g1 g2 g3 r : string) :
  Py.isdigit g1 = true -> Py.isdigit g2 = true -> Py.isdigit g3 = true ->
  stops Py.is_digit r ->
  release_prefix (g1 ++ "." ++ g2 ++ "." ++ g3 ++ r)
  = Some (g1 ++ "." ++ g2 ++ "." ++ g3, r).
Proof.
  intros D1 D2 D3 Hr. unfold release_prefix.
  rewrite (digits_then_app g1) by (auto; reflexivity).
  cbn [expect append Ascii.eqb Bool.eqb].
  rewrite (digits_then_app g2) by (auto; reflexivity).
  cbn [expect append Ascii.eqb Bool.eqb].
  now rewrite (digits_then_app g3) by auto.
Qed.

(** A release is never cut short: a longer third component only
    lengthens what is matched. *)
Lemma release_prefix_total (g1 g2 g3 q : string) :
  Py.isdigit g1 = true -> Py.isdigit g2 = true -> Py.isdigit g3 = true ->
  release_prefix (g1 ++ "." ++ g2 ++ "." ++ g3 ++ q) <> None.
Proof.
  intros D1 D2 D3. unfold release_prefix.
  rewrite (digits_then_app g1) by (auto; reflexivity).
  cbn [expect append Ascii.eqb Bool.eqb].
  rewrite (digits_then_app g2) by (auto; reflexivity).
  cbn [expect append Ascii.eqb Bool.eqb].
  unfold digits_then.
  destruct (Py.span Py.is_digit (g3 ++ q)) as [g r] eqn:Hs.
  destruct g as [|c g]; [|discriminate].
  exfalso. apply isdigit_spec in D3 as [Hne Hall].
  destruct g3 as [|c g3]; [congruence|].
  cbn [append Py.span Py.all] in Hs, Hall.
  apply andb_true_iff in Hall as [Hc _]. rewrite Hc in Hs.
  destruct (Py.span Py.is_digit (g3 ++ q)); discriminate.
Qed.

Lemma either_segment_spec (s seg r : string) :
  either_segment s = (seg, r) ->
  s = seg ++ r
  /\ (seg = EmptyString
      \/ exists c g, seg = String c g /\ (c = "-"%char \/ c = "+"%char)
           /\ g <> EmptyString /\ Py.all Py.is_seg_char g = true
           /\ stops Py.is_seg_char r).
Proof.
  unfold either_segment. destruct s as [|c s].
  - intros [= <- <-]. auto.
  - destruct (Ascii.eqb c "-" || Ascii.eqb c "+") eqn:Hc.
    + destruct (Py.span Py.is_seg_char s) as [g rest] eqn:Hs.
      destruct (Py.is_empty g) eqn:He; intros [= <- <-]; [auto|].
      destruct (span_spec _ _ _ _ Hs) as (-> & Hg & Hr).
      split; [reflexivity|]. right. exists c, g.
      repeat split; auto.
      * apply orb_true_iff in Hc as [H|H]; apply Ascii.eqb_eq in H; auto.
      * intros ->; discriminate.
    + intros [= <- <-]. auto.
Qed.

Lemma either_segment_some (c : ascii) (g r : string) :
  c = "-"%char \/ c = "+"%char ->
  g <> EmptyString -> Py.all Py.is_seg_char g = true ->
  stops Py.is_seg_char r ->
  either_segment (String c g ++ r) = (String c g, r).
Proof.
  intros Hc Hne Hall Hr. cbn [append either_segment].
  assert (E : Ascii.eqb c "-" || Ascii.eqb c "+" = true)
    by (destruct Hc as [->| ->]; reflexivity).
  rewrite E, (span_app _ _ _ Hall Hr). now rewrite (is_empty_false _ Hne).
Qed.

Lemma either_segment_none (r : string) :
  stops is_sign r -> either_segment r = (EmptyString, r).
Proof.
  destruct r as [|c r]; [reflexivity|].
  unfold stops, is_sign, either_segment. now intros ->.
Qed.

(** A release followed by at most one signed segment and at most one
    newline is in the language of [parse_semver]'s pattern, with the
    prerelease or the build group unused. *)
Lemma single_segment_matches (g1 g2 g3 seg nl : string) :
  Py.isdigit g1 = true -> Py.isdigit g2 = true -> Py.isdigit g3 = true ->
  (seg = EmptyString
   \/ exists c g, seg = String c g /\ (c = "-"%char \/ c = "+"%char)
        /\ g <> EmptyString /\ Py.all Py.is_seg_char g = true) ->
  (nl = EmptyString \/ nl = newline) ->
  exists m,
    matches ((g1 ++ "." ++ g2 ++ "." ++ g3) ++ seg ++ nl) m
    /\ (g_pre m = None \/ g_build m = None).
Proof.
  intros D1 D2 D3 Hseg Hnl.
  destruct Hseg as [->|(c & g & -> & Hc & Hne & Hall)].
  - exists (mkGroups g1 g2 g3 None None). split; [|now left].
    exists nl. cbn [g_major g_minor g_patch g_pre g_build segment].
    split; [now rewrite !append_assoc|].
    split; [exact Hnl|]. do 3 (split; [assumption|]).
    split; discriminate.
  - destruct Hc as [->| ->].
    + exists (mkGroups g1 g2 g3 (Some g) None). split; [|now right].
      exists nl. cbn [g_major g_minor g_patch g_pre g_build segment].
      split; [now rewrite !append_assoc|].
      split; [exact Hnl|]. do 3 (split; [assumption|]).
      split; [intros p [= <-]; auto | discriminate].
    + exists (mkGroups g1 g2 g3 None (Some g)). split; [|now left].
      exists nl. cbn [g_major g_minor g_patch g_pre g_build segment].
      split; [now rewrite !append_assoc|].
      split; [exact Hnl|]. do 3 (split; [assumption|]).
      split; [discriminate | intros p [= <-]; auto].
Qed.

Lemma VERSION_RE_match_sound (s : string) :
  VERSION_RE_match s = true ->
  exists m, matches s m /\ (g_pre m = None \/ g_build m = None).
Proof.
  unfold VERSION_RE_match.
  destruct (release_prefix s) as [[rel r3]|] eqn:Hr; [|discriminate].
  destruct (either_segment r3) as [seg r4] eqn:Hs. intros He.
  apply release_prefix_spec in Hr as (g1 & g2 & g3 & -> & -> & D1 & D2 & D3 & _).
  apply either_segment_spec in Hs as (-> & Hseg).
  apply at_end_spec in He.
  apply single_segment_matches; auto.
  destruct Hseg as [->|(c & g & -> & Hc & Hne & Hall & _)]; [now left|].
  right. exists c, g. auto.
Qed.

Lemma VERSION_RE_match_complete (s : string) (m : groups) :
  matches s m -> g_pre m = None \/ g_build m = None ->
  VERSION_RE_match s = true.
Proof.
  destruct m as [g1 g2 g3 g4 g5].
  intros (nl & -> & Hnl & D1 & D2 & D3 & P4 & P5) Hone.
  cbn [g_major g_minor g_patch g_pre g_build] in *.
  unfold VERSION_RE_match.
  rewrite release_prefix_app by (auto; stops_tac).
  assert (Hnl' : Py.at_end nl = true) by now apply at_end_spec.
  destruct Hone as [->| ->]; cbn [segment append].
  - destruct g5 as [b|]; cbn [segment].
    + destruct (P5 b eq_refl) as [Hne Hall].
      rewrite (either_segment_some "+" b nl) by (auto; stops_tac).
      exact Hnl'.
    + cbn [append]. rewrite either_segment_none by stops_tac. exact Hnl'.
  - destruct g4 as [p|]; cbn [segment].
    + destruct (P4 p eq_refl) as [Hne Hall].
      rewrite (either_segment_some "-" p nl) by (auto; stops_tac).
      exact Hnl'.
    + cbn [append]. rewrite either_segment_none by stops_tac. exact Hnl'.
Qed.

(** X6. [VERSION_RE] accepts exactly the strings that [parse_semver]'s
    pattern matches without using both the prerelease and the build
    group; so [parse_semver] never returns [None] on a [fixedVersion]
    that passed the check of line 191, while a string matched with both a
    prerelease and build metadata is turned down by [VERSION_RE]. *)
Theorem VERSION_RE_match_iff (s : string) :
  (VERSION_RE_match s = true <->
   exists m, re_match s = Some m /\ (g_pre m = None \/ g_build m = None))
  /\ (VERSION_RE_match s = true -> parse_semver s <> Ok None)
  /\ (forall m, re_match s = Some m -> g_pre m <> None ->
      g_build m <> None -> VERSION_RE_match s = false).
Proof.
  split; [|split].
  - split.
    + intros H. apply VERSION_RE_match_sound in H as (m & Hm & Hone).
      exists m. split; [now apply re_match_complete | exact Hone].
    + intros (m & Hm & Hone). apply re_match_sound in Hm.
      now apply (VERSION_RE_match_complete s m).
  - intros H E. apply VERSION_RE_match_sound in H as (m & Hm & _).
    apply parse_semver_none in E.
    rewrite (re_match_complete s m Hm) in E. discriminate.
  - intros m Hm Hp Hb.
    destruct (VERSION_RE_match s) eqn:E; [|reflexivity].
    apply VERSION_RE_match_sound in E as (m' & Hm' & Hone).
    apply re_match_complete in Hm'.
    assert (m' = m) by congruence. subst m'. tauto.
Qed.

Lemma match_here_spec (s t : string) :
  match_here s = Some t ->
  exists q g1 g2 g3 seg,
    s = t ++ q /\ t = (g1 ++ "." ++ g2 ++ "." ++ g3) ++ seg
    /\ Py.isdigit g1 = true /\ Py.isdigit g2 = true
    /\ Py.isdigit g3 = true
    /\ (seg = EmptyString
        \/ exists c g, seg = String c g /\ (c = "-"%char \/ c = "+"%char)
             /\ g <> EmptyString /\ Py.all Py.is_seg_char g = true).
Proof.
  unfold match_here.
  destruct (release_prefix s) as [[rel r3]|] eqn:Hr; [|discriminate].
  destruct (either_segment r3) as [seg r4] eqn:Hs. intros [= <-].
  apply release_prefix_spec in Hr as (g1 & g2 & g3 & -> & -> & D1 & D2 & D3 & _).
  apply either_segment_spec in Hs as (-> & Hseg).
  exists r4, g1, g2, g3, seg. split; [now rewrite !append_assoc|].
  repeat split; auto.
  destruct Hseg as [->|(c & g & -> & Hc & Hne & Hall & _)]; [now left|].
  right. exists c, g. auto.
Qed.

Lemma match_here_non_digit (c : ascii) (r : string) :
  Py.is_digit c = false -> match_here (String c r) = None.
Proof.
  intros Hc. unfold match_here, release_prefix, digits_then.
  cbn [Py.span]. now rewrite Hc.
Qed.

Lemma re_search_spec (s t : string) :
  re_search s = Some t ->
  exists p q, s = p ++ t ++ q /\ match_here (t ++ q) = Some t.
Proof.
  induction s as [|c s IH]; cbn [re_search].
  - destruct (match_here "") eqn:H; [|discriminate].
    vm_compute in H. discriminate.
  - destruct (match_here (String c s)) as [t'|] eqn:H.
    + intros [= ->]. exists EmptyString.
      destruct (match_here_spec _ _ H) as (q & _ & _ & _ & _ & E & _).
      exists q. rewrite <- E. auto.
    + intros Hs. destruct (IH Hs) as (p & q & -> & Hm).
      exists (String c p), q. auto.
Qed.

(** The extracted text is a piece of the string: a release followed by
    at most one signed segment. *)
Lemma re_search_shape (dep_version dep_clean : string) :
  re_search dep_version = Some dep_clean ->
  (exists p q, dep_version = p ++ dep_clean ++ q)
  /\ exists g1 g2 g3 seg,
       dep_clean = (g1 ++ "." ++ g2 ++ "." ++ g3) ++ seg
       /\ Py.isdigit g1 = true /\ Py.isdigit g2 = true
       /\ Py.isdigit g3 = true
       /\ (seg = EmptyString
           \/ exists c g, seg = String c g /\ (c = "-"%char \/ c = "+"%char)
                /\ g <> EmptyString /\ Py.all Py.is_seg_char g = true).
Proof.
  intros Hs. destruct (re_search_spec _ _ Hs) as (p & q & E & Hm).
  destruct (match_here_spec _ _ Hm)
    as (q' & g1 & g2 & g3 & seg & _ & Et & D1 & D2 & D3 & Hseg).
  split; [eauto|]. exists g1, g2, g3, seg. auto.
Qed.

Lemma re_search_parses (dep_version dep_clean : string) :
  re_search dep_version = Some dep_clean ->
  exists m, matches dep_clean m /\ (g_pre m = None \/ g_build m = None).
Proof.
  intros Hs.
  destruct (re_search_shape _ _ Hs)
    as (_ & g1 & g2 & g3 & seg & -> & D1 & D2 & D3 & Hseg).
  destruct (single_segment_matches g1 g2 g3 seg EmptyString D1 D2 D3 Hseg)
    as (m & Hm & Hone); [now left|].
  rewrite append_nil_r in Hm. eauto.
Qed.

Lemma sign_not_newline (c : ascii) :
  c = "-"%char \/ c = "+"%char -> not_newline c = true.
Proof. intros [->| ->]; reflexivity. Qed.

(** X7. Whatever [re.search] extracts from the dependency string is a
    piece of that string, has no newline, satisfies [VERSION_RE] and is
    in the language of [parse_semver]'s pattern, so that [parse_semver]
    does not return [None] on it. *)
Theorem re_search_sound (dep_version dep_clean : string) :
  re_search dep_version = Some dep_clean ->
  (exists p q, dep_version = p ++ dep_clean ++ q)
  /\ Py.all not_newline dep_clean = true
  /\ VERSION_RE_match dep_clean = true
  /\ parse_semver dep_clean <> Ok None.
Proof.
  intros Hs.
  destruct (re_search_parses _ _ Hs) as (m & Hm & Hone).
  destruct (re_search_shape _ _ Hs)
    as (Hsub & g1 & g2 & g3 & seg & Et & D1 & D2 & D3 & Hseg).
  split; [exact Hsub|]. split; [|split].
  - rewrite Et, !all_app.
    apply isdigit_spec in D1 as [_ D1].
    apply isdigit_spec in D2 as [_ D2].
    apply isdigit_spec in D3 as [_ D3].
    rewrite (all_impl _ _ _ digit_not_newline D1),
      (all_impl _ _ _ digit_not_newline D2),
      (all_impl _ _ _ digit_not_newline D3).
    destruct Hseg as [->|(c & g & -> & Hc & _ & Hall)]; [reflexivity|].
    cbn [Py.all andb].
    now rewrite (all_impl _ _ _ seg_char_not_newline Hall),
      (sign_not_newline c Hc).
  - now apply (VERSION_RE_match_complete _ m).
  - intros E. apply parse_semver_none in E.
    rewrite (re_match_complete _ m Hm) in E. discriminate.
Qed.

Lemma re_search_sound_witness :
  (exists p q, ">=1.2.3-rc.1+b <2.0.0" = p ++ "1.2.3-rc.1" ++ q)
  /\ Py.all not_newline "1.2.3-rc.1" = true
  /\ VERSION_RE_match "1.2.3-rc.1" = true
  /\ parse_semver "1.2.3-rc.1" <> Ok None.
Proof.
  exact (re_search_sound ">=1.2.3-rc.1+b <2.0.0" "1.2.3-rc.1" eq_refl).
Defined.

Lemma stops_weaken (p q : ascii -> bool) (r : string) :
  (forall c, q c = true -> p c = true) -> stops p r -> stops q r.
Proof.
  intros H. destruct r as [|c r]; [auto|]. unfold stops. intros Hp.
  destruct (q c) eqn:Hq; [|reflexivity].
  rewrite (H c Hq) in Hp. discriminate.
Qed.

Lemma sign_version_char (c : ascii) :
  is_sign c = true -> is_version_char c = true.
Proof.
  unfold is_sign. intros H. apply orb_true_iff in H as [H|H];
    apply Ascii.eqb_eq in H as ->; reflexivity.
Qed.

Lemma re_search_here (s t : string) :
  match_here s = Some t -> re_search s = Some t.
Proof. intros H. destruct s; cbn [re_search]; now rewrite H. Qed.

Lemma re_search_skip (p s : string) :
  Py.all not_digit p = true -> re_search (p ++ s) = re_search s.
Proof.
  induction p as [|c p IH]; [reflexivity|]. cbn [Py.all append re_search].
  intros H; apply andb_true_iff in H as [Hc Hp].
  unfold not_digit in Hc. apply negb_true_iff in Hc.
  now rewrite (match_here_non_digit c _ Hc), (IH Hp).
Qed.

(** X8. The extraction strips range operators: when a version accepted
    by [VERSION_RE] (and free of newlines) is preceded by characters
    that are not digits and followed by nothing, or by a character that
    cannot belong to a version, [re.search] returns exactly that
    version. *)
Theorem re_search_extracts (p v q : string) :
  Py.all not_digit p = true ->
  VERSION_RE_match v = true -> Py.all is_version_char v = true ->
  stops is_version_char q ->
  re_search (p ++ v ++ q) = Some v.
Proof.
  intros Hp Hv Ha Hq. rewrite (re_search_skip p _ Hp).
  apply re_search_here.
  unfold VERSION_RE_match in Hv.
  destruct (release_prefix v) as [[rel r3]|] eqn:Hr; [|discriminate].
  destruct (either_segment r3) as [seg r4] eqn:Hs.
  apply release_prefix_spec in Hr
    as (g1 & g2 & g3 & -> & -> & D1 & D2 & D3 & _).
  apply either_segment_spec in Hs as (-> & Hseg).
  apply at_end_spec in Hv.
  assert (E4 : r4 = EmptyString).
  { destruct Hv as [->| ->]; [reflexivity|].
    rewrite !all_app in Ha. apply andb_true_iff in Ha as [_ Ha].
    apply andb_true_iff in Ha as [_ Ha]. discriminate. }
  subst r4. rewrite append_nil_r in *.
  unfold match_here.
  replace (((g1 ++ "." ++ g2 ++ "." ++ g3) ++ seg) ++ q)
    with (g1 ++ "." ++ g2 ++ "." ++ g3 ++ seg ++ q)
    by (now rewrite !append_assoc).
  destruct Hseg as [->|(c & g & -> & Hc & Hne & Hall & _)].
  - rewrite release_prefix_app; auto.
    + cbn [append]. rewrite either_segment_none.
      * now rewrite append_nil_r.
      * exact (stops_weaken _ _ _ sign_version_char Hq).
    + exact (stops_weaken _ _ _ digit_version_char Hq).
  - rewrite release_prefix_app; auto.
    + rewrite either_segment_some; auto.
      exact (stops_weaken _ _ _ seg_char_version_char Hq).
    + destruct Hc as [->| ->]; reflexivity.
Qed.

Lemma re_search_extracts_witness :
  re_search "^4.17.20" = Some "4.17.20"
  /\ re_search ">=1.2.3-rc.1 <2.0.0" = Some "1.2.3-rc.1"
  /\ re_search "~ v0.3.1+sha.5, 0.4.0" = Some "0.3.1+sha.5".
Proof.
  split; [|split].
  - exact (re_search_extracts "^" "4.17.20" "" eq_refl eq_refl eq_refl I).
  - exact (re_search_extracts ">=" "1.2.3-rc.1" " <2.0.0"
             eq_refl eq_refl eq_refl eq_refl).
  - exact (re_search_extracts "~ v" "0.3.1+sha.5" ", 0.4.0"
             eq_refl eq_refl eq_refl eq_refl).
Defined.

Lemma match_here_release (g1 g2 g3 q : string) :
  Py.isdigit g1 = true -> Py.isdigit g2 = true -> Py.isdigit g3 = true ->
  match_here (g1 ++ "." ++ g2 ++ "." ++ g3 ++ q) <> None.
Proof.
  intros D1 D2 D3. unfold match_here.
  pose proof (release_prefix_total g1 g2 g3 q D1 D2 D3) as H.
  destruct (release_prefix (g1 ++ "." ++ g2 ++ "." ++ g3 ++ q))
    as [[rel r3]|]; [|congruence].
  destruct (either_segment r3). discriminate.
Qed.

Lemma re_search_app_some (p s : string) :
  match_here s <> None -> re_search (p ++ s) <> None.
Proof.
  intros H. induction p as [|c p IH].
  - destruct (match_here s) as [t|] eqn:E; [|congruence].
    cbn [append]. now rewrite (re_search_here s t E).
  - cbn [append re_search].
    destruct (match_here (String c (p ++ s))); [discriminate | exact IH].
Qed.

(** Three runs of digits separated by two dots are always found. *)
Lemma re_search_finds (p d1 d2 d3 q : string) :
  Py.isdigit d1 = true -> Py.isdigit d2 = true -> Py.isdigit d3 = true ->
  re_search (p ++ d1 ++ "." ++ d2 ++ "." ++ d3 ++ q) <> None.
Proof.
  intros D1 D2 D3.
  apply re_search_app_some, match_here_release; assumption.
Qed.

(** ** The version check of [main] *)

(** The comparison on line 240 never returns [None]: it returns 1, 0 or
    -1, or raises. *)
Lemma compare_in_main (fixed dv dep_clean : string) :
  VERSION_RE_match fixed = true -> re_search dv = Some dep_clean ->
  compare_semver fixed dep_clean = Ok (Some 1)
  \/ compare_semver fixed dep_clean = Ok (Some 0)
  \/ compare_semver fixed dep_clean = Ok (Some (-1))
  \/ compare_semver fixed dep_clean = ValueError.
Proof.
  intros Hf Hs.
  destruct (VERSION_RE_match_sound fixed Hf) as (m & Hm & _).
  destruct (re_search_parses dv dep_clean Hs) as (md & Hmd & _).
  apply re_match_complete in Hm, Hmd.
  unfold compare_semver.
  destruct (parse_semver fixed) as [[pf|]|] eqn:Ef; [| |now auto].
  - destruct (parse_semver dep_clean) as [[pd|]|] eqn:Ed; [| |now auto].
    + cbn [bind].
      destruct (compare_parsed pf pd) as [r|] eqn:E; [|now auto].
      cbn [bind].
      destruct (compare_parsed_range pf pd r E) as [->|[->| ->]]; auto.
    + apply parse_semver_none in Ed. congruence.
  - apply parse_semver_none in Ef. congruence.
Qed.

(** The state after the version check: untouched, or one more report. *)
Lemma check_dependency_version_state (name fixed : string)
  (dep_key : option string) (dep_version : json) (st st' : report)
  (go : bool) :
  VERSION_RE_match fixed = true ->
  check_dependency_version name fixed dep_key dep_version st
  = Ok (st', go) ->
  (go = true /\ st' = st)
  \/ (go = false
      /\ exists category,
           st' = mark_failure name category st
           /\ (category = "InvalidDepVersion" \/ category = "SameVersion"
               \/ category = "VersionNotGreater")).
Proof.
  intros Hf. unfold check_dependency_version.
  destruct (truthy dep_key); [|intros [= <- <-]; now left].
  destruct dep_version as [| b | n | dv | l | d];
    try (intros [= <- <-]; right; split; [reflexivity|]; eauto).
  destruct (re_search dv) as [dep_clean|] eqn:Hs;
    [|intros [= <- <-]; right; split; [reflexivity|]; eauto].
  destruct (compare_in_main fixed dv dep_clean Hf Hs) as [E|[E|[E|E]]];
    rewrite E; cbn [bind Z.eqb Z.ltb Z.compare];
    [intros [= <- <-]; now left
    | intros [= <- <-]; right; split; [reflexivity|]; eauto ..
    | discriminate].
Qed.

(** What a passed version check implies. *)
Lemma check_dependency_version_passed (name fixed : string)
  (dep_key : option string) (dep_version : json) (st st' : report) :
  VERSION_RE_match fixed = true ->
  check_dependency_version name fixed dep_key dep_version st
  = Ok (st', true) ->
  truthy dep_key = false
  \/ exists dv dep_clean,
       dep_version = JStr dv /\ re_search dv = Some dep_clean
       /\ compare_semver fixed dep_clean = Ok (Some 1).
Proof.
  intros Hf. unfold check_dependency_version.
  destruct (truthy dep_key); [|now left].
  destruct dep_version as [| b | n | dv | l | d]; try discriminate.
  destruct (re_search dv) as [dep_clean|] eqn:Hs; [|discriminate].
  destruct (compare_in_main fixed dv dep_clean Hf Hs) as [E|[E|[E|E]]];
    rewrite E; cbn [bind Z.eqb Z.ltb Z.compare]; try discriminate.
  intros _. right. eauto.
Qed.

(** X10. For a [fixedVersion] that passed [VERSION_RE], the version
    check of lines 228-264 either lets the directory through, leaving
    the accumulators untouched, which for a usable dependency key means
    that the dependency's version is a string from which a version was
    extracted and that [fixedVersion] is strictly greater; or it records
    [InvalidDepVersion], [SameVersion] or [VersionNotGreater].  The
    [InvalidFixed] branch of line 245 is never taken. *)
Theorem check_dependency_version_outcomes (name fixed : string)
  (dep_key : option string) (dep_version : json) (st st' : report)
  (go : bool) :
  VERSION_RE_match fixed = true ->
  check_dependency_version name fixed dep_key dep_version st
  = Ok (st', go) ->
  (go = true /\ st' = st
   /\ (truthy dep_key = false
       \/ exists dv dep_clean,
            dep_version = JStr dv /\ re_search dv = Some dep_clean
            /\ compare_semver fixed dep_clean = Ok (Some 1)))
  \/ (go = false /\ truthy dep_key = true
      /\ exists category,
           st' = mark_failure name category st
           /\ ((category = "InvalidDepVersion"
                /\ forall dv, dep_version = JStr dv -> re_search dv = None)
               \/ (category = "SameVersion"
                   /\ exists dv dep_clean,
                        dep_version = JStr dv
                        /\ re_search dv = Some dep_clean
                        /\ compare_semver fixed dep_clean = Ok (Some 0))
               \/ (category = "VersionNotGreater"
                   /\ exists dv dep_clean,
                        dep_version = JStr dv
                        /\ re_search dv = Some dep_clean
                        /\ compare_semver fixed dep_clean
                           = Ok (Some (-1))))).
Proof.
  intros Hf. unfold check_dependency_version.
  destruct (truthy dep_key) eqn:Ht; [|intros [= <- <-]; left; auto].
  destruct dep_version as [| b | n | dv | l | d];
    try (intros [= <- <-]; right; repeat split; auto;
         eexists; split; [reflexivity|]; left; split; [reflexivity|];
         intros dv' E; discriminate).
  destruct (re_search dv) as [dep_clean|] eqn:Hs.
  - destruct (compare_in_main fixed dv dep_clean Hf Hs) as [E|[E|[E|E]]];
      rewrite E; cbn [bind Z.eqb Z.ltb Z.compare];
      [intros [= <- <-] .. | discriminate].
    + left. repeat split; auto. right. eauto.
    + right. repeat split; auto. eexists; split; [reflexivity|].
      right; left. split; [reflexivity|]. eauto.
    + right. repeat split; auto. eexists; split; [reflexivity|].
      right; right. split; [reflexivity|]. eauto.
  - intros [= <- <-]. right. repeat split; auto.
    eexists; split; [reflexivity|]. left. split; [reflexivity|].
    now intros dv' [= <-].
Qed.

Lemma check_dependency_version_outcomes_witness :
  check_dependency_version "lodash" "4.17.21" (Some "lodash")
    (JStr "^4.17.20") initial_report = Ok (initial_report, true)
  /\ compare_semver "4.17.21" "4.17.20" = Ok (Some 1).
Proof.
  split; [reflexivity|].
  destruct (check_dependency_version_outcomes "lodash" "4.17.21"
              (Some "lodash") (JStr "^4.17.20") initial_report
              initial_report true eq_refl eq_refl)
    as [(_ & _ & [H|(dv & dep_clean & Ev & Es & Ec)])|(H & _)];
    try discriminate.
  injection Ev as <-.
  assert (E : dep_clean = "4.17.20") by (vm_compute in Es; congruence).
  now rewrite <- E.
Defined.

(** ** Dictionaries *)

Lemma dict_get_set_same {V : Type} (k : string) (v : V) (d : dict V) :
  dict_get k (dict_set k v d) = Some v.
Proof.
  induction d as [|[k' v'] d IH]; cbn [dict_set dict_get].
  - now rewrite String.eqb_refl.
  - destruct (String.eqb k' k) eqn:E; cbn [dict_get].
    + now rewrite String.eqb_refl.
    + now rewrite E.
Qed.

Lemma dict_get_set_other {V : Type} (k k' : string) (v : V) (d : dict V) :
  k' <> k -> dict_get k' (dict_set k v d) = dict_get k' d.
Proof.
  intros Hne. induction d as [|[k0 v0] d IH]; cbn [dict_set dict_get].
  - destruct (String.eqb_spec k k'); [congruence | reflexivity].
  - destruct (String.eqb_spec k0 k) as [->|N]; cbn [dict_get].
    + destruct (String.eqb_spec k k'); [congruence | reflexivity].
    + destruct (String.eqb k0 k'); [reflexivity | exact IH].
Qed.

Lemma dict_set_get_id {V : Type} (k : string) (v : V) (d : dict V) :
  dict_get k d = Some v -> dict_set k v d = d.
Proof.
  induction d as [|[k' v'] d IH]; cbn [dict_set dict_get]; [discriminate|].
  destruct (String.eqb_spec k' k) as [->|N].
  - now intros [= ->].
  - intros H. now rewrite (IH H).
Qed.

Lemma dict_set_set {V : Type} (k : string) (v w : V) (d : dict V) :
  dict_set k v (dict_set k w d) = dict_set k v d.
Proof.
  induction d as [|[k' v'] d IH]; cbn [dict_set].
  - now rewrite String.eqb_refl.
  - destruct (String.eqb k' k) eqn:E; cbn [dict_set].
    + now rewrite String.eqb_refl.
    + now rewrite E, IH.
Qed.

Lemma dict_set_keys {V : Type} (k : string) (v : V) (d : dict V) :
  dict_in k d = true -> map fst (dict_set k v d) = map fst d.
Proof.
  unfold dict_in.
  induction d as [|[k' v'] d IH]; cbn [dict_set dict_get map fst];
    [discriminate|].
  destruct (String.eqb_spec k' k) as [->|N]; [reflexivity|].
  intros H. cbn [map fst]. now rewrite (IH H).
Qed.

(** Assignments to two keys that are both present commute. *)
Lemma dict_set_comm {V : Type} (k1 k2 : string) (v1 v2 : V) (d : dict V) :
  k1 <> k2 -> dict_in k1 d = true -> dict_in k2 d = true ->
  dict_set k1 v1 (dict_set k2 v2 d) = dict_set k2 v2 (dict_set k1 v1 d).
Proof.
  unfold dict_in. intros Hne.
  assert (N12 : String.eqb k1 k2 = false) by now apply String.eqb_neq.
  assert (N21 : String.eqb k2 k1 = false)
    by (apply String.eqb_neq; congruence).
  induction d as [|[k v] d IH]; cbn [dict_get]; [discriminate|].
  intros H1 H2. cbn [dict_set].
  destruct (String.eqb k k1) eqn:E1; destruct (String.eqb k k2) eqn:E2;
    cbn [dict_set]; rewrite ?E1, ?E2, ?N12, ?N21, ?String.eqb_refl;
    try reflexivity.
  - apply String.eqb_eq in E1, E2. congruence.
  - now rewrite (IH H1 H2).
Qed.

Lemma filed_under_append (category c name : string)
  (tl : dict (list string)) :
  dict_get c (setdefault_append category name tl)
  = if String.eqb c category then
      Some (match dict_get category tl with
            | Some names => names
            | None => []
            end ++ [name])%list
    else dict_get c tl.
Proof.
  induction tl as [|[c' names] tl IH]; cbn [setdefault_append dict_get].
  - rewrite String.eqb_sym. now destruct (String.eqb c category).
  - destruct (String.eqb_spec c' category) as [->|N]; cbn [dict_get].
    + rewrite String.eqb_sym. now destruct (String.eqb c category).
    + destruct (String.eqb_spec c' c) as [->|N'].
      * destruct (String.eqb_spec c category); [congruence|reflexivity].
      * exact IH.
Qed.

(** ** The failure tables *)

Lemma consistent_initial : consistent initial_report.
Proof.
  split.
  - intros name category. unfold filed_under, initial_report.
    cbn [type_lists primary_failure dict_get].
    split; [|discriminate].
    repeat match goal with
           | |- context [String.eqb ?a ?b] => destruct (String.eqb a b)
           end; intros [].
  - intros category. unfold filed_under, initial_report.
    cbn [type_lists dict_get].
    repeat match goal with
           | |- context [String.eqb ?a ?b] => destruct (String.eqb a b)
           end; constructor.
Qed.

Lemma mark_failure_consistent (name category : string) (st : report) :
  consistent st -> consistent (mark_failure name category st).
Proof.
  intros [Ha Hb]. unfold mark_failure.
  destruct (dict_in name (primary_failure st)) eqn:Hin; cbn [negb];
    [split; assumption|].
  assert (Hnone : dict_get name (primary_failure st) = None).
  { unfold dict_in in Hin.
    destruct (dict_get name (primary_failure st)); [discriminate|auto]. }
  assert (Hfresh : forall c, ~ In name (filed_under c st)).
  { intros c Hc. apply Ha in Hc. congruence. }
  assert (Hf : forall c,
             filed_under c
               (mkReport (invalid_fixed st) (mismatched_deps st)
                  (dict_set name category (primary_failure st))
                  (setdefault_append category name (type_lists st)))
             = if String.eqb c category
               then (filed_under category st ++ [name])%list
               else filed_under c st).
  { intros c. unfold filed_under; cbn [type_lists].
    rewrite filed_under_append. now destruct (String.eqb c category). }
  split.
  - intros n c. rewrite Hf. cbn [primary_failure].
    destruct (String.eqb_spec n name) as [->|Nn].
    + rewrite dict_get_set_same.
      destruct (String.eqb_spec c category) as [->|Nc].
      * split; [reflexivity|]. intros _. apply in_or_app; right; now left.
      * split; [intros H; now apply Hfresh in H | congruence].
    + rewrite (dict_get_set_other _ _ _ _ Nn), <- Ha.
      destruct (String.eqb_spec c category) as [->|Nc]; [|tauto].
      rewrite in_app_iff. cbn [In]. split; [|tauto].
      intros [H|[H|[]]]; [assumption | congruence].
  - intros c. rewrite Hf.
    destruct (String.eqb c category); [|apply Hb].
    apply NoDup_app; [apply Hb | repeat constructor; intros [] |].
    intros x Hx [<-|[]]. now apply Hfresh in Hx.
Qed.

Lemma mark_all_consistent (calls : list (string * string)) (st : report) :
  consistent st -> consistent (mark_all calls st).
Proof.
  revert st; induction calls as [|[n c] calls IH]; intros st H; [exact H|].
  cbn [mark_all]. now apply IH, mark_failure_consistent.
Qed.

(** X11. However many failures are reported, and in whatever order, the
    tables stay in step: a directory is filed under a category exactly
    when that category is its primary failure, no list names a directory
    twice, and no directory is filed under two categories; so each
    failed directory is moved once. *)
Theorem mark_failure_partition (calls : list (string * string)) :
  let st := mark_all calls initial_report in
  (forall name category,
     In name (filed_under category st) <->
     dict_get name (primary_failure st) = Some category)
  /\ (forall category, NoDup (filed_under category st))
  /\ (forall name c1 c2,
        In name (filed_under c1 st) -> In name (filed_under c2 st) ->
        c1 = c2).
Proof.
  intros st.
  destruct (mark_all_consistent calls initial_report consistent_initial)
    as [Ha Hb].
  split; [exact Ha|]. split; [exact Hb|].
  intros name c1 c2 H1 H2. apply Ha in H1, H2. congruence.
Qed.

(** X12. The first report wins: after any sequence of [mark_failure]
    calls, a directory that already had a primary failure keeps it, and
    otherwise its primary failure is the category of the first call that
    named it (none if no call did). *)
Theorem mark_failure_first_wins (calls : list (string * string))
  (st : report) (name : string) :
  dict_get name (primary_failure (mark_all calls st))
  = match dict_get name (primary_failure st) with
    | Some c => Some c
    | None =>
        option_map snd (find (fun call => String.eqb (fst call) name) calls)
    end.
Proof.
  revert st; induction calls as [|[n c] calls IH]; intros st.
  - cbn. now destruct (dict_get name (primary_failure st)).
  - cbn [mark_all find fst]. rewrite IH. unfold mark_failure, dict_in.
    destruct (dict_get n (primary_failure st)) as [c0|] eqn:En;
      cbn [negb primary_failure].
    + destruct (String.eqb_spec n name) as [->|N].
      * now rewrite En.
      * reflexivity.
    + destruct (String.eqb_spec n name) as [->|N].
      * now rewrite dict_get_set_same, En.
      * rewrite dict_get_set_other by congruence. reflexivity.
Qed.

(** ** The exchange of the two versions *)

Lemma swap_versions_unfold (dep_key : option string)
  (safe_pkg safe_pkg' : dict json) :
  swap_versions dep_key safe_pkg = Some safe_pkg' ->
  exists k deps old_dep,
    dep_key = Some k /\ k <> EmptyString
    /\ dict_get "dependencies" safe_pkg = Some (JDict deps)
    /\ dict_get k deps = Some old_dep
    /\ safe_pkg'
       = dict_set "dependencies"
           (JDict (dict_set k (py_get "fixedVersion" safe_pkg) deps))
           (dict_set "fixedVersion" old_dep safe_pkg).
Proof.
  unfold swap_versions. destruct dep_key as [k|]; [|discriminate].
  destruct k as [|c k]; [discriminate|]. cbn [Py.is_empty negb].
  destruct (dict_get "dependencies" safe_pkg) as [[| | | | |deps]|] eqn:Hd;
    try discriminate.
  destruct (dict_get (String c k) deps) as [old_dep|] eqn:Hk;
    [|discriminate].
  intros [= <-]. exists (String c k), deps, old_dep.
  repeat split; auto. discriminate.
Qed.

(** X13. When the exchange is carried out, [fixedVersion] afterwards
    holds the dependency's old version and the dependency holds the old
    [fixedVersion] ([None] if there was none); every other entry of the
    package and of its dependencies is as before, and the dependencies
    keep their order. *)
Theorem swap_versions_effect (dep_key : option string)
  (safe_pkg safe_pkg' : dict json) :
  swap_versions dep_key safe_pkg = Some safe_pkg' ->
  exists k deps deps' old_dep,
    dep_key = Some k
    /\ dict_get "dependencies" safe_pkg = Some (JDict deps)
    /\ dict_get k deps = Some old_dep
    /\ dict_get "fixedVersion" safe_pkg' = Some old_dep
    /\ dict_get "dependencies" safe_pkg' = Some (JDict deps')
    /\ dict_get k deps' = Some (py_get "fixedVersion" safe_pkg)
    /\ (forall k', k' <> k -> dict_get k' deps' = dict_get k' deps)
    /\ map fst deps' = map fst deps
    /\ (forall k', k' <> "fixedVersion" -> k' <> "dependencies" ->
          dict_get k' safe_pkg' = dict_get k' safe_pkg).
Proof.
  intros H.
  destruct (swap_versions_unfold _ _ _ H)
    as (k & deps & old_dep & -> & Hne & Hd & Hk & ->).
  exists k, deps, (dict_set k (py_get "fixedVersion" safe_pkg) deps), old_dep.
  split; [reflexivity|]. split; [assumption|]. split; [assumption|].
  split; [|split; [|split; [|split; [|split]]]].
  - rewrite dict_get_set_other by discriminate. apply dict_get_set_same.
  - apply dict_get_set_same.
  - apply dict_get_set_same.
  - intros k' Hk'. now apply dict_get_set_other.
  - apply dict_set_keys. unfold dict_in. now rewrite Hk.
  - intros k' H1 H2. now rewrite !dict_get_set_other.
Qed.

Lemma swap_versions_effect_witness :
  exists k deps deps' old_dep,
    Some "lodash" = Some k
    /\ dict_get "dependencies"
         [("name", JStr "t"); ("fixedVersion", JStr "4.17.21");
          ("dependencies",
           JDict [("lodash", JStr "^4.17.20"); ("left-pad", JStr "1.3.0")])]
       = Some (JDict deps)
    /\ dict_get k deps = Some old_dep
    /\ dict_get "fixedVersion"
         [("name", JStr "t"); ("fixedVersion", JStr "^4.17.20");
          ("dependencies",
           JDict [("lodash", JStr "4.17.21"); ("left-pad", JStr "1.3.0")])]
       = Some old_dep
    /\ dict_get "dependencies"
         [("name", JStr "t"); ("fixedVersion", JStr "^4.17.20");
          ("dependencies",
           JDict [("lodash", JStr "4.17.21"); ("left-pad", JStr "1.3.0")])]
       = Some (JDict deps')
    /\ dict_get k deps'
       = Some (py_get "fixedVersion"
                 [("name", JStr "t"); ("fixedVersion", JStr "4.17.21");
                  ("dependencies",
                   JDict [("lodash", JStr "^4.17.20");
                          ("left-pad", JStr "1.3.0")])])
    /\ (forall k', k' <> k -> dict_get k' deps' = dict_get k' deps)
    /\ map fst deps' = map fst deps
    /\ (forall k', k' <> "fixedVersion" -> k' <> "dependencies" ->
          dict_get k'
            [("name", JStr "t"); ("fixedVersion", JStr "^4.17.20");
             ("dependencies",
              JDict [("lodash", JStr "4.17.21");
                     ("left-pad", JStr "1.3.0")])]
          = dict_get k'
              [("name", JStr "t"); ("fixedVersion", JStr "4.17.21");
               ("dependencies",
                JDict [("lodash", JStr "^4.17.20");
                       ("left-pad", JStr "1.3.0")])]).
Proof.
  exact (swap_versions_effect (Some "lodash")
           [("name", JStr "t"); ("fixedVersion", JStr "4.17.21");
            ("dependencies",
             JDict [("lodash", JStr "^4.17.20"); ("left-pad", JStr "1.3.0")])]
           _ eq_refl).
Defined.

(** X14. On a package that has a [fixedVersion], exchanging twice gives
    the package back. *)
Theorem swap_versions_involution (dep_key : option string)
  (safe_pkg safe_pkg' : dict json) :
  dict_in "fixedVersion" safe_pkg = true ->
  swap_versions dep_key safe_pkg = Some safe_pkg' ->
  swap_versions dep_key safe_pkg' = Some safe_pkg.
Proof.
  intros Hf H.
  destruct (swap_versions_unfold _ _ _ H)
    as (k & deps & old_dep & -> & Hne & Hd & Hk & ->).
  unfold dict_in in Hf.
  destruct (dict_get "fixedVersion" safe_pkg) as [old_fixed|] eqn:Ef;
    [|discriminate].
  assert (Ep : py_get "fixedVersion" safe_pkg = old_fixed)
    by (unfold py_get; now rewrite Ef).
  rewrite Ep. unfold swap_versions.
  rewrite (is_empty_false _ Hne). cbn [negb].
  rewrite dict_get_set_same, dict_get_set_same.
  unfold py_get at 1.
  rewrite dict_get_set_other by discriminate.
  rewrite dict_get_set_same.
  f_equal.
  rewrite dict_set_set, (dict_set_get_id k old_dep deps Hk).
  rewrite (dict_set_comm "fixedVersion" "dependencies" old_fixed
             (JDict (dict_set k old_fixed deps))
             (dict_set "fixedVersion" old_dep safe_pkg)).
  - rewrite (dict_set_set "fixedVersion"), (dict_set_get_id _ _ _ Ef).
    rewrite dict_set_set. now apply dict_set_get_id.
  - discriminate.
  - unfold dict_in. now rewrite dict_get_set_same.
  - unfold dict_in. rewrite dict_get_set_other by discriminate.
    now rewrite Hd.
Qed.

Lemma swap_versions_involution_witness :
  swap_versions (Some "lodash")
    [("name", JStr "t"); ("fixedVersion", JStr "^4.17.20");
     ("dependencies", JDict [("lodash", JStr "4.17.21")])]
  = Some [("name", JStr "t"); ("fixedVersion", JStr "4.17.21");
          ("dependencies", JDict [("lodash", JStr "^4.17.20")])].
Proof.
  exact (swap_versions_involution (Some "lodash")
           [("name", JStr "t"); ("fixedVersion", JStr "4.17.21");
            ("dependencies", JDict [("lodash", JStr "^4.17.20")])]
           _ eq_refl eq_refl).
Defined.


(** ** One directory through the checks *)

Lemma py_get_str (k : string) (d : dict json) (s : string) :
  py_get k d = JStr s -> dict_get k d = Some (JStr s).
Proof. unfold py_get. destruct (dict_get k d); [now intros -> | discriminate]. Qed.

Lemma py_get_dict (k : string) (d : dict json) (x : dict json) :
  py_get k d = JDict x -> dict_get k d = Some (JDict x).
Proof. unfold py_get. destruct (dict_get k d); [now intros -> | discriminate]. Qed.

Lemma select_dependency_spec (name : string) (deps : json)
  (st st1 : report) (dep_key : option string) (dep_version : json) :
  select_dependency name deps st = (dep_key, dep_version, st1) ->
  (exists d, deps = JDict d /\ dict_in name d = true
     /\ dep_key = Some name /\ dict_get name d = Some dep_version
     /\ st1 = st)
  \/ ((forall d, deps = JDict d -> dict_in name d = false)
      /\ st1 = mark_failure name "MismatchedDeps"
                 (mkReport (invalid_fixed st)
                    (mismatched_deps st ++ [name])%list
                    (primary_failure st) (type_lists st))
      /\ (dep_key = None
          \/ exists k, deps = JDict [(k, dep_version)] /\ dep_key = Some k)).
Proof.
  unfold select_dependency.
  destruct deps as [| b | n | s | l | d];
    try (intros [= <- <- <-]; right;
         split; [intros d' E; discriminate | split; [reflexivity | now left]]).
  destruct (dict_in name d) eqn:Hin.
  - intros [= <- <- <-]. left. exists d. repeat split; auto.
    unfold py_get, dict_in in *. now destruct (dict_get name d).
  - assert (Hall : forall d', JDict d = JDict d' -> dict_in name d' = false)
      by (intros d' [= <-]; exact Hin).
    destruct d as [|[k v] [|kv d]]; cbn [List.length Nat.eqb];
      intros [= <- <- <-]; right; (split; [exact Hall|]);
      (split; [reflexivity|]); [now left | right; eauto | now left].
Qed.

Lemma mark_failure_primary (name category n : string) (st : report) :
  dict_get n (primary_failure (mark_failure name category st))
  = match dict_get n (primary_failure st) with
    | Some c => Some c
    | None => if String.eqb n name then Some category else None
    end.
Proof.
  unfold mark_failure, dict_in.
  destruct (dict_get name (primary_failure st)) as [c0|] eqn:En;
    cbn [negb primary_failure].
  - destruct (dict_get n (primary_failure st)) eqn:E; [reflexivity|].
    destruct (String.eqb_spec n name); [congruence | reflexivity].
  - destruct (String.eqb_spec n name) as [->|N].
    + now rewrite dict_get_set_same, En.
    + rewrite dict_get_set_other by assumption.
      now destruct (dict_get n (primary_failure st)).
Qed.

Lemma mark_all_marked (calls : list (string * string)) (st : report)
  (name c0 : string) :
  dict_get name (primary_failure st) = Some c0 ->
  dict_get name (primary_failure (mark_all calls st)) = Some c0.
Proof.
  revert st; induction calls as [|[n c] calls IH]; intros st H; [exact H|].
  cbn [mark_all]. apply IH. now rewrite mark_failure_primary, H.
Qed.

Lemma mark_all_other (calls : list (string * string)) (st : report)
  (name n : string) :
  Forall (fun call => fst call = name) calls -> n <> name ->
  dict_get n (primary_failure (mark_all calls st))
  = dict_get n (primary_failure st).
Proof.
  intros Hall Hn. revert st.
  induction Hall as [|[n' c] calls Hx _ IH]; intros st; [reflexivity|].
  cbn [mark_all fst] in *. subst n'. rewrite IH, mark_failure_primary.
  destruct (dict_get n (primary_failure st)); [reflexivity|].
  destruct (String.eqb_spec n name); [contradiction | reflexivity].
Qed.

Lemma consistent_lists (a b : list string) (st : report) :
  consistent st ->
  consistent (mkReport a b (primary_failure st) (type_lists st)).
Proof. intros H; exact H. Qed.

(** X15. A directory reaches the copy step only if its [fixedVersion]
    is a string accepted by [VERSION_RE] and, unless no usable dependency
    key was found, the chosen dependency's version is a string from which
    a version was extracted that is strictly less than [fixedVersion]. *)
Theorem check_package_copy_only_if (name : string) (pkg : dict json)
  (st st' : report) (dep_key : option string) :
  check_package name pkg st = Ok (st', Some dep_key) ->
  exists fixed,
    dict_get "fixedVersion" pkg = Some (JStr fixed)
    /\ VERSION_RE_match fixed = true
    /\ (truthy dep_key = false
        \/ exists k deps dv dep_clean,
             dep_key = Some k
             /\ dict_get "dependencies" pkg = Some (JDict deps)
             /\ dict_get k deps = Some (JStr dv)
             /\ re_search dv = Some dep_clean
             /\ compare_semver fixed dep_clean = Ok (Some 1)).
Proof.
  unfold check_package.
  destruct (py_get "fixedVersion" pkg) as [| b | n | fixed | l | d] eqn:Ef;
    try discriminate.
  destruct (VERSION_RE_match fixed) eqn:Hv; [|discriminate].
  destruct (select_dependency name (py_get "dependencies" pkg) st)
    as [[dk dv] st1] eqn:Hsel.
  destruct (check_dependency_version name fixed dk dv st1)
    as [[st2 go]|] eqn:Hchk; [|discriminate].
  cbn [bind]. destruct go; [|discriminate]. intros [= <- <-].
  exists fixed. split; [now apply py_get_str|]. split; [exact Hv|].
  destruct (select_dependency_spec _ _ _ _ _ _ Hsel)
    as [(d & Ed & Hin & -> & Hg & _)|(_ & _ & [->|(k & Ed & ->)])];
    [| now left |];
    (destruct (check_dependency_version_passed _ _ _ _ _ _ Hv Hchk)
      as [Ht|(s & dep_clean & -> & Hs & Hc)]; [now left | right]).
  - exists name, d, s, dep_clean. repeat split; auto.
    now apply py_get_dict.
  - exists k, [(k, JStr s)], s, dep_clean. repeat split; auto.
    + now apply py_get_dict.
    + cbn [dict_get]. now rewrite String.eqb_refl.
Qed.

Lemma check_package_copy_only_if_witness :
  exists fixed,
    dict_get "fixedVersion"
      [("fixedVersion", JStr "4.17.21");
       ("dependencies", JDict [("lodash", JStr "^4.17.20")])]
    = Some (JStr fixed)
    /\ VERSION_RE_match fixed = true
    /\ (truthy (Some "lodash") = false
        \/ exists k deps dv dep_clean,
             Some "lodash" = Some k
             /\ dict_get "dependencies"
                  [("fixedVersion", JStr "4.17.21");
                   ("dependencies", JDict [("lodash", JStr "^4.17.20")])]
                = Some (JDict deps)
             /\ dict_get k deps = Some (JStr dv)
             /\ re_search dv = Some dep_clean
             /\ compare_semver fixed dep_clean = Ok (Some 1)).
Proof.
  exact (check_package_copy_only_if "lodash"
           [("fixedVersion", JStr "4.17.21");
            ("dependencies", JDict [("lodash", JStr "^4.17.20")])]
           initial_report initial_report (Some "lodash") eq_refl).
Defined.

Lemma fresh_get (name : string) (st : report) :
  dict_in name (primary_failure st) = false ->
  dict_get name (primary_failure st) = None.
Proof.
  unfold dict_in. now destruct (dict_get name (primary_failure st)).
Qed.

Lemma mark_failure_fresh (name category : string) (st : report) :
  dict_get name (primary_failure st) = None ->
  dict_get name (primary_failure (mark_failure name category st))
  = Some category.
Proof.
  intros H. now rewrite mark_failure_primary, H, String.eqb_refl.
Qed.

Lemma mark_failure_marked (name category c0 : string) (st : report) :
  dict_get name (primary_failure st) = Some c0 ->
  dict_get name (primary_failure (mark_failure name category st))
  = Some c0.
Proof. intros H. now rewrite mark_failure_primary, H. Qed.

(** X9. For a usable dependency key, a dependency version that is a
    string and a directory with no failure so far: the version check,
    when it returns, leaves [InvalidDepVersion] as the directory's
    failure exactly when [re.search] finds nothing in the string; so a
    string that holds three runs of digits separated by two dots is
    never reported as [InvalidDepVersion]. *)
Theorem invalid_dep_version_iff (name fixed : string)
  (dep_key : option string) (dv : string) (st st' : report) (go : bool) :
  truthy dep_key = true ->
  dict_in name (primary_failure st) = false ->
  check_dependency_version name fixed dep_key (JStr dv) st = Ok (st', go) ->
  (dict_get name (primary_failure st') = Some "InvalidDepVersion" <->
   re_search dv = None)
  /\ (forall p d1 d2 d3 q,
        dv = p ++ d1 ++ "." ++ d2 ++ "." ++ d3 ++ q ->
        Py.isdigit d1 = true -> Py.isdigit d2 = true ->
        Py.isdigit d3 = true ->
        dict_get name (primary_failure st') <> Some "InvalidDepVersion").
Proof.
  intros Ht Hfresh Hc. apply fresh_get in Hfresh.
  assert (Hiff : dict_get name (primary_failure st')
                 = Some "InvalidDepVersion" <-> re_search dv = None).
  { revert Hc. unfold check_dependency_version. rewrite Ht.
    destruct (re_search dv) as [dep_clean|] eqn:Hs.
    - destruct (compare_semver fixed dep_clean) as [[c|]|];
        cbn [bind]; [| |discriminate].
      + destruct (c =? 0); [|destruct (c <? 0)]; intros [= <- <-];
          rewrite ?(mark_failure_fresh name _ st Hfresh), ?Hfresh;
          split; discriminate.
      + intros [= <- <-]. rewrite (mark_failure_fresh name _ st Hfresh).
        split; discriminate.
    - intros [= <- <-]. rewrite (mark_failure_fresh name _ st Hfresh).
      split; reflexivity. }
  split; [exact Hiff|].
  intros p d1 d2 d3 q E D1 D2 D3 H. apply Hiff in H.
  apply (re_search_finds p d1 d2 d3 q D1 D2 D3). now rewrite <- E.
Qed.

Lemma invalid_dep_version_iff_witness :
  dict_get "lodash"
    (primary_failure
       (mark_failure "lodash" "InvalidDepVersion" initial_report))
  = Some "InvalidDepVersion" <-> re_search "latest" = None.
Proof.
  exact (proj1 (invalid_dep_version_iff "lodash" "4.17.21"
                  (Some "lodash") "latest" initial_report _ false
                  eq_refl eq_refl eq_refl)).
Defined.

(** What the checks leave in the primary-failure table for a directory
    that had no failure yet, and what they return. *)
Lemma check_package_fresh (name : string) (pkg : dict json)
  (st st' : report) (r : option (option string)) :
  dict_in name (primary_failure st) = false ->
  check_package name pkg st = Ok (st', r) ->
  ((~ exists fixed, py_get "fixedVersion" pkg = JStr fixed
                    /\ VERSION_RE_match fixed = true)
   /\ dict_get name (primary_failure st') = Some "InvalidFixed"
   /\ r = None)
  \/ ((exists fixed, py_get "fixedVersion" pkg = JStr fixed
                     /\ VERSION_RE_match fixed = true)
      /\ (((exists d, py_get "dependencies" pkg = JDict d
                      /\ dict_in name d = true)
           /\ ((dict_get name (primary_failure st') = None
                /\ r = Some (Some name))
               \/ (r = None
                   /\ (dict_get name (primary_failure st')
                       = Some "InvalidDepVersion"
                       \/ dict_get name (primary_failure st')
                          = Some "SameVersion"
                       \/ dict_get name (primary_failure st')
                          = Some "VersionNotGreater"))))
          \/ ((~ exists d, py_get "dependencies" pkg = JDict d
                           /\ dict_in name d = true)
              /\ dict_get name (primary_failure st')
                 = Some "MismatchedDeps"
              /\ r <> Some (Some name)))).
Proof.
  intros Hfresh. apply fresh_get in Hfresh. unfold check_package.
  destruct (py_get "fixedVersion" pkg) as [| b | n | fixed | l | d] eqn:Ef;
    try (intros [= <- <-]; left; split;
         [intros (f & E & _); discriminate|];
         split; [now apply mark_failure_fresh | reflexivity]).
  destruct (VERSION_RE_match fixed) eqn:Hv.
  2:{ intros [= <- <-]; left; split.
      - intros (f & [= <-] & E). congruence.
      - split; [now apply mark_failure_fresh | reflexivity]. }
  destruct (select_dependency name (py_get "dependencies" pkg) st)
    as [[dk dv] st1] eqn:Hsel.
  destruct (check_dependency_version name fixed dk dv st1)
    as [[st2 go]|] eqn:Hchk; [|discriminate].
  cbn [bind]. intros [= <- <-]. right. split; [eauto|].
  destruct (select_dependency_spec _ _ _ _ _ _ Hsel)
    as [(d & Ed & Hin & -> & Hg & ->)|(Hno & -> & Hk)].
  - left. split; [eauto|].
    destruct (check_dependency_version_state _ _ _ _ _ _ _ Hv Hchk)
      as [(-> & ->)|(-> & c & -> & Hc)].
    + left. auto.
    + right. split; [reflexivity|].
      rewrite (mark_failure_fresh name c st Hfresh).
      destruct Hc as [->|[->| ->]]; auto.
  - right. split.
    + intros (d & Ed & Hin). rewrite (Hno d Ed) in Hin. discriminate.
    + assert (Hm : dict_get name
                     (primary_failure
                        (mark_failure name "MismatchedDeps"
                           (mkReport (invalid_fixed st)
                              (mismatched_deps st ++ [name])%list
                              (primary_failure st) (type_lists st))))
                   = Some "MismatchedDeps")
        by now apply mark_failure_fresh.
      split.
      * destruct (check_dependency_version_state _ _ _ _ _ _ _ Hv Hchk)
          as [(_ & ->)|(_ & c & -> & _)]; [exact Hm|].
        now apply mark_failure_marked.
      * destruct go; [|discriminate].
        destruct Hk as [->|(k & Ed & ->)]; [discriminate|].
        intros [= ->]. specialize (Hno _ Ed).
        unfold dict_in in Hno. cbn [dict_get] in Hno.
        rewrite String.eqb_refl in Hno. discriminate.
Qed.

(** X16. For a directory with no failure so far: [InvalidFixed] is
    recorded exactly when [fixedVersion] is not a string accepted by
    [VERSION_RE]; with a good [fixedVersion], a directory whose own name
    is not a key of a [dependencies] dict is recorded as
    [MismatchedDeps] whatever the version check says afterwards; and the
    directory stays without failure exactly when it goes on to the copy
    step with its own name as dependency key. *)
Theorem check_package_category (name : string) (pkg : dict json)
  (st st' : report) (r : option (option string)) :
  dict_in name (primary_failure st) = false ->
  check_package name pkg st = Ok (st', r) ->
  (dict_get name (primary_failure st') = Some "InvalidFixed" <->
   ~ exists fixed, py_get "fixedVersion" pkg = JStr fixed
                   /\ VERSION_RE_match fixed = true)
  /\ ((exists fixed, py_get "fixedVersion" pkg = JStr fixed
                     /\ VERSION_RE_match fixed = true) ->
      (~ exists d, py_get "dependencies" pkg = JDict d
                   /\ dict_in name d = true) ->
      dict_get name (primary_failure st') = Some "MismatchedDeps")
  /\ (dict_get name (primary_failure st') = None <->
      r = Some (Some name)).
Proof.
  intros Hfresh Hc.
  destruct (check_package_fresh name pkg st st' r Hfresh Hc)
    as [(Hbad & -> & ->)
       |(Hgood & [(Hown & [(-> & ->)|(-> & Hcat)])|(Hnone & -> & Hr)])].
  - split; [tauto|]. split; [tauto|]. split; discriminate.
  - split; [split; [discriminate | tauto]|]. split; [|tauto].
    intros _ Hnone. tauto.
  - split; [|split].
    + split; [|tauto].
      intros E. destruct Hcat as [H|[H|H]]; rewrite H in E; discriminate.
    + intros _ Hnone. tauto.
    + split; [|discriminate].
      intros E. destruct Hcat as [H|[H|H]]; rewrite H in E; discriminate.
  - split; [split; [discriminate | tauto]|]. split; [reflexivity|].
    split; [discriminate | intros E; contradiction].
Qed.

Lemma check_package_category_witness :
  exists st' r,
    check_package "lodash"
      [("fixedVersion", JStr "4.17.21");
       ("dependencies", JDict [("lowdash", JStr "4.17.21")])]
      initial_report = Ok (st', r)
    /\ (dict_get "lodash" (primary_failure st') = Some "InvalidFixed" <->
        ~ exists fixed,
            py_get "fixedVersion"
              [("fixedVersion", JStr "4.17.21");
               ("dependencies", JDict [("lowdash", JStr "4.17.21")])]
            = JStr fixed
            /\ VERSION_RE_match fixed = true)
    /\ dict_get "lodash" (primary_failure st') = Some "MismatchedDeps".
Proof.
  eexists. eexists. split; [reflexivity|].
  destruct (check_package_category "lodash"
              [("fixedVersion", JStr "4.17.21");
               ("dependencies", JDict [("lowdash", JStr "4.17.21")])]
              initial_report _ _ eq_refl eq_refl) as (H1 & H2 & _).
  split; [exact H1|].
  apply H2.
  - exists "4.17.21". split; reflexivity.
  - intros (d & Ed & Hin). injection Ed as <-. discriminate.
Defined.

Lemma check_package_tables (name : string) (pkg : dict json)
  (st st' : report) (r : option (option string)) :
  check_package name pkg st = Ok (st', r) ->
  exists a b calls,
    Forall (fun call => fst call = name) calls
    /\ st' = mark_all calls
               (mkReport a b (primary_failure st) (type_lists st)).
Proof.
  unfold check_package.
  assert (Hinv : forall x,
             x = Ok (mark_failure name "InvalidFixed"
                       (mkReport (invalid_fixed st ++ [name])%list
                          (mismatched_deps st) (primary_failure st)
                          (type_lists st)), @None (option string)) ->
             x = Ok (st', r) ->
             exists a b calls,
               Forall (fun call => fst call = name) calls
               /\ st' = mark_all calls
                          (mkReport a b (primary_failure st)
                             (type_lists st))).
  { intros x -> [= <- <-].
    exists (invalid_fixed st ++ [name])%list, (mismatched_deps st),
      [(name, "InvalidFixed")].
    split; [repeat constructor | reflexivity]. }
  destruct (py_get "fixedVersion" pkg) as [| b | n | fixed | l | d];
    try (apply Hinv; reflexivity).
  destruct (VERSION_RE_match fixed) eqn:Hv; [|apply Hinv; reflexivity].
  clear Hinv.
  destruct (select_dependency name (py_get "dependencies" pkg) st)
    as [[dk dv] st1] eqn:Hsel.
  destruct (check_dependency_version name fixed dk dv st1)
    as [[st2 go]|] eqn:Hchk; [|discriminate].
  cbn [bind]. intros [= <- <-].
  destruct (select_dependency_spec _ _ _ _ _ _ Hsel)
    as [(d & _ & _ & _ & _ & ->)|(_ & -> & _)];
    destruct (check_dependency_version_state _ _ _ _ _ _ _ Hv Hchk)
      as [(_ & ->)|(_ & c & -> & _)].
  - exists (invalid_fixed st), (mismatched_deps st), [].
    split; [constructor | now destruct st].
  - exists (invalid_fixed st), (mismatched_deps st), [(name, c)].
    split; [repeat constructor | now destruct st].
  - exists (invalid_fixed st), (mismatched_deps st ++ [name])%list,
      [(name, "MismatchedDeps")].
    split; [repeat constructor | reflexivity].
  - exists (invalid_fixed st), (mismatched_deps st ++ [name])%list,
      [(name, "MismatchedDeps"); (name, c)].
    split; [repeat constructor | reflexivity].
Qed.

(** X17. The checks of one directory keep the two failure tables in
    step, never touch the failure recorded for another directory, and
    never replace a failure already recorded for this one. *)
Theorem check_package_frame (name : string) (pkg : dict json)
  (st st' : report) (r : option (option string)) :
  consistent st ->
  check_package name pkg st = Ok (st', r) ->
  consistent st'
  /\ (forall n, n <> name ->
        dict_get n (primary_failure st') = dict_get n (primary_failure st))
  /\ (forall c0, dict_get name (primary_failure st) = Some c0 ->
        dict_get name (primary_failure st') = Some c0).
Proof.
  intros Hc H.
  destruct (check_package_tables name pkg st st' r H)
    as (a & b & calls & Hall & ->).
  split; [|split].
  - apply mark_all_consistent. now apply consistent_lists.
  - intros n Hn. now rewrite (mark_all_other calls _ name n Hall Hn).
  - intros c0 E. now apply mark_all_marked.
Qed.

Lemma check_package_frame_witness :
  exists st' r,
    check_package "b"
      [("fixedVersion", JStr "1.0.0");
       ("dependencies", JDict [("b", JStr "1.0.0")])]
      (mark_failure "a" "MissingPackage" initial_report) = Ok (st', r)
    /\ consistent st'
    /\ dict_get "a" (primary_failure st') = Some "MissingPackage".
Proof.
  eexists. eexists. split; [reflexivity|].
  destruct (check_package_frame "b"
              [("fixedVersion", JStr "1.0.0");
               ("dependencies", JDict [("b", JStr "1.0.0")])]
              (mark_failure "a" "MissingPackage" initial_report) _ _
              (mark_failure_consistent "a" "MissingPackage" initial_report
                 consistent_initial)
              eq_refl) as (H1 & H2 & _).
  split; [exact H1|].
  eapply eq_trans; [apply (H2 "a"); discriminate | reflexivity].
Defined.
